(** * The agent IPC handlers of [src/main/ipc/agent.ts]

    A shallow embedding of [registerAgentHandlers]: the [agent:invoke]
    handler, which streams the agent's state snapshots to the renderer as
    typed events, and the [agent:interrupt] handler, which answers a
    human-in-the-loop pause.

    The handlers read snapshots typed [any], so the embedding works on a
    small universe of JavaScript values and keeps the exceptions a read or
    a call can raise.  Sending on the window's channel is the only output;
    it is kept as the list of events sent, in order.

    What the embedding takes for granted:
    - a snapshot is a tree of the values of [JsVal]: integers for numbers,
      strings as the bytes of their UTF-8 encoding, own data properties only
      (no accessors, no proxies);
    - the stream of snapshots is finite: it runs out, or a pull throws;
    - [window.webContents.send] does not throw;
    - the identifiers of [crypto.randomUUID], the clock, [new Date(v)],
      the string conversion of [join] and [process.cwd()] are the
      platform's, a parameter;
    - the table [activeRuns] and the [agent:cancel] handler show only in the
      point at which a session's controller is aborted. *)

From stdpp Require Import base option list strings gmap pretty.
From Stdlib Require Import ZArith.

#[local] Set Warnings "-register-all".

(** ** Values *)

(** What a [catch] clause can tell about a thrown value:
    [error instanceof Error ? error.message : 'Unknown error']. *)
Inductive Thrown :=
  | ThrownError (message : string)
  | ThrownOther.

(** The outcome of evaluating an expression: a value, or an exception. *)
Inductive Completion (A : Type) :=
  | Normal (a : A)
  | Throw (e : Thrown).
Arguments Normal {A} a.
Arguments Throw {A} e.

Global Instance completion_ret : MRet Completion := λ A a, Normal a.

Global Instance completion_bind : MBind Completion := λ A B f c,
  match c with
  | Normal a => f a
  | Throw e => Throw e
  end.

(** The values a snapshot is built from.  Numbers are the integers.  Arrays,
    objects and functions carry the reference that tells two of them apart;
    an object lists its own data properties in the order [Object.entries]
    enumerates them; a function is called without arguments that matter and
    either returns or throws. *)
Inductive JsVal :=
  | JUndefined
  | JNull
  | JBool (b : bool)
  | JNum (n : Z)
  | JStr (s : string)
  | JArr (ref : nat) (elems : list JsVal)
  | JObj (ref : nat) (props : list (string * JsVal))
  | JFun (ref : nat) (name : string) (body : Completion JsVal).

(** [v ? _ : _], [v && _], [v || _]. *)
Definition truthy (v : JsVal) : bool :=
  match v with
  | JUndefined | JNull => false
  | JBool b => b
  | JNum n => negb (n =? 0)%Z
  | JStr s => negb (String.eqb s "")
  | JArr _ _ | JObj _ _ | JFun _ _ _ => true
  end.

(** [a || b] where [b] is already a value. *)
Definition js_or (a b : JsVal) : JsVal := if truthy a then a else b.

Inductive TypeTag :=
  | TUndefined | TObject | TBoolean | TNumber | TString | TFunction.

Global Instance TypeTag_eq_dec : EqDecision TypeTag.
Proof. solve_decision. Defined.

Definition typeof (v : JsVal) : TypeTag :=
  match v with
  | JUndefined => TUndefined
  | JNull | JArr _ _ | JObj _ _ => TObject
  | JBool _ => TBoolean
  | JNum _ => TNumber
  | JStr _ => TString
  | JFun _ _ _ => TFunction
  end.

(** [Array.isArray(v)]. *)
Definition isArray (v : JsVal) : bool :=
  match v with JArr _ _ => true | _ => false end.

(** [s.length]: the number of UTF-16 code units of a string.  A string is
    held as the bytes of its UTF-8 encoding, in which a character of one,
    two or three bytes is one code unit and a character of four bytes is
    two; the bytes that continue a character count nothing. *)
Definition utf16_units (b : Ascii.ascii) : nat :=
  let n := Ascii.nat_of_ascii b in
  if (n <? 128)%nat then 1
  else if (n <? 192)%nat then 0
  else if (n <? 240)%nat then 1
  else 2.

Fixpoint js_length (s : string) : nat :=
  match s with
  | EmptyString => 0
  | String b rest => utf16_units b + js_length rest
  end.

Fixpoint lookup_prop (k : string) (props : list (string * JsVal)) : JsVal :=
  match props with
  | [] => JUndefined
  | (k', v) :: rest => if String.eqb k k' then v else lookup_prop k rest
  end.

(** V8's message for a property read on [undefined] or [null]. *)
Definition cannot_read (what k : string) : Thrown :=
  ThrownError ("Cannot read properties of " +:+ what +:+ " (reading '" +:+ k +:+ "')").

(** [v.k], for the data properties the handlers read.  Reading from
    [undefined] or [null] throws; a primitive or an array has none of these
    properties; a function has its [name]. *)
Definition prop (v : JsVal) (k : string) : Completion JsVal :=
  match v with
  | JUndefined => Throw (cannot_read "undefined" k)
  | JNull => Throw (cannot_read "null" k)
  | JObj _ props => Normal (lookup_prop k props)
  | JFun _ name _ => Normal (if String.eqb k "name" then JStr name else JUndefined)
  | JBool _ | JNum _ | JStr _ | JArr _ _ => Normal JUndefined
  end.

(** [Array.isArray(v)] held: the elements iterated or mapped over. *)
Definition elems (v : JsVal) : list JsVal :=
  match v with JArr _ l => l | _ => [] end.

(** [Object.entries(v)] of an object. *)
Definition entries (v : JsVal) : list (string * JsVal) :=
  match v with JObj _ props => props | _ => [] end.

(** [v?.k]. *)
Definition optional_prop (v : JsVal) (k : string) : JsVal :=
  match prop v k with
  | Normal x => x
  | Throw _ => JUndefined
  end.

(** [v === 'literal']. *)
Definition is_str (v : JsVal) (lit : string) : bool :=
  match v with JStr s => String.eqb s lit | _ => false end.

(** What a [Set] compares its members by (SameValueZero): primitives by
    value, everything else by reference. *)
Inductive Key :=
  | KUndefined
  | KNull
  | KBool (b : bool)
  | KNum (n : Z)
  | KStr (s : string)
  | KRef (r : nat).

Definition key_of (v : JsVal) : Key :=
  match v with
  | JUndefined => KUndefined
  | JNull => KNull
  | JBool b => KBool b
  | JNum n => KNum n
  | JStr s => KStr s
  | JArr r _ | JObj r _ | JFun r _ _ => KRef r
  end.

Global Instance Key_eq_dec : EqDecision Key.
Proof. solve_decision. Defined.

Definition Key_to_sum (k : Key) : bool + (bool + (Z + (string + nat))) :=
  match k with
  | KUndefined => inl false
  | KNull => inl true
  | KBool b => inr (inl b)
  | KNum n => inr (inr (inl n))
  | KStr s => inr (inr (inr (inl s)))
  | KRef r => inr (inr (inr (inr r)))
  end.

Definition Key_of_sum (x : bool + (bool + (Z + (string + nat)))) : Key :=
  match x with
  | inl false => KUndefined
  | inl true => KNull
  | inr (inl b) => KBool b
  | inr (inr (inl n)) => KNum n
  | inr (inr (inr (inl s))) => KStr s
  | inr (inr (inr (inr r))) => KRef r
  end.

Global Instance Key_countable : Countable Key.
Proof.
  apply (inj_countable' Key_to_sum Key_of_sum).
  by intros [].
Defined.

(** ** Events

    [StreamEvent] is declared in [../types]; the shapes below are those of
    the object literals the handler sends. *)

Inductive Role := RUser | RAssistant | RSystem | RTool.

Global Instance Role_eq_dec : EqDecision Role.
Proof. solve_decision. Defined.

Inductive JsDate :=
  | DateAt (t : Z)
  | InvalidDate.

Record Message := {
  msg_id : JsVal;
  msg_role : Role;
  msg_content : string;
  msg_tool_calls : JsVal;
  msg_created_at : JsDate }.

Record Todo := {
  todo_id : JsVal;
  todo_content : JsVal;
  todo_status : JsVal }.

Record FileEntry := {
  file_path : JsVal;
  file_is_dir : JsVal;
  file_size : JsVal }.

Record Subagent := {
  sub_id : JsVal;
  sub_name : JsVal;
  sub_description : JsVal;
  sub_status : JsVal;
  sub_startedAt : option JsDate;
  sub_completedAt : option JsDate }.

Record HITLRequest := {
  req_id : JsVal;
  req_tool_call : JsVal;
  req_allowed_decisions : list string }.

Inductive StreamEvent :=
  | EvMessage (message : Message)
  | EvTodos (todos : list Todo)
  | EvWorkspace (files : list FileEntry) (path : JsVal)
  | EvSubagents (subagents : list Subagent)
  | EvInterrupt (request : HITLRequest)
  | EvDone (result : JsVal)
  | EvError (error : string).

(** One [window.webContents.send(channel, event)]. *)
Definition Sent : Type := string * StreamEvent.

(** ** What the platform provides *)

Class Platform := {
  (** the [n]-th identifier [crypto.randomUUID()] returns to the session *)
  randomUUID : nat → string;
  (** the [n]-th reading of the clock by [new Date()] *)
  clock : nat → Z;
  (** [new Date(v)] *)
  date_of : JsVal → Completion JsDate;
  (** the conversion [Array.prototype.join] applies to an element that is
      not a string *)
  to_string : JsVal → Completion string;
  (** [process.cwd()] *)
  cwd : string }.

(** ** The handler monad

    State, the events sent so far, and exceptions: a computation that
    throws keeps the state it reached and the events it had sent. *)

Record SessionState := {
  seenMessageIds : gset Key;
  uuid_draws : nat;
  clock_reads : nat }.

Definition Handler (A : Type) : Type :=
  SessionState → SessionState * list Sent * Completion A.

Global Instance handler_ret : MRet Handler := λ A a s, (s, [], Normal a).

Global Instance handler_bind : MBind Handler := λ A B f m s,
  match m s with
  | (s1, out1, Normal a) => let '(s2, out2, r) := f a s1 in (s2, out1 ++ out2, r)
  | (s1, out1, Throw e) => (s1, out1, Throw e)
  end.

Global Instance handler_throw : MThrow Thrown Handler := λ A e s, (s, [], Throw e).

(** A pure evaluation inside a handler. *)
Definition lift {A} (c : Completion A) : Handler A :=
  match c with
  | Normal a => mret a
  | Throw e => mthrow e
  end.

Definition send (channel : string) (ev : StreamEvent) : Handler unit :=
  λ s, (s, [(channel, ev)], Normal ()).

Definition seen_has (k : Key) : Handler bool :=
  λ s, (s, [], Normal (bool_decide (k ∈ seenMessageIds s))).

Definition seen_add (k : Key) : Handler unit :=
  λ s, ({| seenMessageIds := {[k]} ∪ seenMessageIds s;
           uuid_draws := uuid_draws s;
           clock_reads := clock_reads s |}, [], Normal ()).

(** Nothing to do: a [continue], or an [if] without [else]. *)
Definition skip : Handler unit := mret ().

Fixpoint for_each {A} (body : A → Handler unit) (l : list A) : Handler unit :=
  match l with
  | [] => mret ()
  | x :: rest => body x;; for_each body rest
  end.

(** [l.map(f)] with a callback that may throw. *)
Fixpoint map_each {A B} (f : A → Handler B) (l : list A) : Handler (list B) :=
  match l with
  | [] => mret []
  | x :: rest => y ← f x; ys ← map_each f rest; mret (y :: ys)
  end.

Definition sent {A} (r : SessionState * list Sent * Completion A) : list Sent := r.1.2.
Definition final {A} (r : SessionState * list Sent * Completion A) : SessionState := r.1.1.
Definition outcome {A} (r : SessionState * list Sent * Completion A) : Completion A := r.2.

Section Handlers.
Context `{Platform}.

Definition new_uuid : Handler JsVal :=
  λ s, ({| seenMessageIds := seenMessageIds s;
           uuid_draws := S (uuid_draws s);
           clock_reads := clock_reads s |}, [], Normal (JStr (randomUUID (uuid_draws s)))).

Definition new_date : Handler JsDate :=
  λ s, ({| seenMessageIds := seenMessageIds s;
           uuid_draws := uuid_draws s;
           clock_reads := S (clock_reads s) |}, [], Normal (DateAt (clock (clock_reads s)))).

(** [v || crypto.randomUUID()]: the generator runs only when [v] is falsy. *)
Definition or_uuid (v : JsVal) : Handler JsVal :=
  if truthy v then mret v else new_uuid.

End Handlers.

(** ** The [agent:invoke] handler *)

Section Invoke.
Context `{Platform}.

(** Lines 67-74: the role of a message item. *)
Definition derive_role (msg : JsVal) : Completion Role :=
  getType ← prop msg "_getType";
  match getType with
  | JFun _ _ body =>
      msgType ← body;
      mret (if is_str msgType "human" then RUser
            else if is_str msgType "ai" then RAssistant
            else if is_str msgType "system" then RSystem
            else if is_str msgType "tool" then RTool
            else RAssistant)
  | _ => mret RAssistant
  end.

(** [blocks.filter(block => block.type === 'text')] *)
Fixpoint filter_text (blocks : list JsVal) : Completion (list JsVal) :=
  match blocks with
  | [] => mret []
  | block :: rest =>
      ty ← prop block "type";
      kept ← filter_text rest;
      mret (if is_str ty "text" then block :: kept else kept)
  end.

(** [.map(block => block.text || '')] *)
Fixpoint map_text (blocks : list JsVal) : Completion (list JsVal) :=
  match blocks with
  | [] => mret []
  | block :: rest =>
      text ← prop block "text";
      texts ← map_text rest;
      mret (js_or text (JStr "") :: texts)
  end.

(** [.join('')] *)
Fixpoint join (parts : list JsVal) : Completion string :=
  match parts with
  | [] => mret ""
  | part :: rest =>
      s ← match part with
          | JStr s => mret s
          | JUndefined | JNull => mret ""
          | _ => to_string part
          end;
      t ← join rest;
      mret (s +:+ t)
  end.

(** Lines 76-85: the text of a message item. *)
Definition extract_content (msg : JsVal) : Completion string :=
  content ← prop msg "content";
  match content with
  | JStr s => mret s
  | JArr _ blocks =>
      kept ← filter_text blocks;
      texts ← map_text kept;
      join texts
  | _ => mret ""
  end.

Definition not_a_function (what : string) : Thrown :=
  ThrownError (what +:+ " is not a function").

(** Line 102: [msgId.substring(0, 20)], evaluated for the log line. *)
Definition substring_call (msgId : JsVal) : Completion unit :=
  match msgId with
  | JStr _ => mret ()
  | JObj _ props =>
      match lookup_prop "substring" props with
      | JFun _ _ body => _ ← body; mret ()
      | _ => Throw (not_a_function "msgId.substring")
      end
  | _ => Throw (not_a_function "msgId.substring")
  end.

(** Lines 61-103: the body of the loop over [state.messages]. *)
Definition process_message (channel : string) (msg : JsVal) : Handler unit :=
  id ← lift (prop msg "id");
  msgId ← or_uuid id;
  seen ← seen_has (key_of msgId);
  if (seen : bool) then skip else
  role ← lift (derive_role msg);
  content ← lift (extract_content msg);
  if bool_decide (role = RAssistant) && negb (String.eqb content "") then
    seen_add (key_of msgId);;
    tool_calls ← lift (prop msg "tool_calls");
    created_at ← new_date;
    send channel (EvMessage {| msg_id := msgId;
                               msg_role := role;
                               msg_content := content;
                               msg_tool_calls := tool_calls;
                               msg_created_at := created_at |});;
    lift (substring_call msgId)
  else skip.

(** Lines 59-105. *)
Definition process_messages (channel : string) (state : JsVal) : Handler unit :=
  messages ← lift (prop state "messages");
  if truthy messages && isArray messages
  then for_each (process_message channel) (elems messages)
  else skip.

Definition todo_of (t : JsVal) : Handler Todo :=
  id ← lift (prop t "id");
  id ← or_uuid id;
  content ← lift (prop t "content");
  status ← lift (prop t "status");
  mret {| todo_id := id;
          todo_content := js_or content (JStr "");
          todo_status := js_or status (JStr "pending") |}.

(** Lines 108-118. *)
Definition process_todos (channel : string) (state : JsVal) : Handler unit :=
  todos ← lift (prop state "todos");
  if truthy todos && isArray todos
  then items ← map_each todo_of (elems todos);
       send channel (EvTodos items)
  else skip.

(** Lines 127-131: one entry of the keyed files object. *)
Definition file_of_entry (entry : string * JsVal) : FileEntry :=
  {| file_path := JStr entry.1;
     file_is_dir := JBool false;
     file_size := match optional_prop entry.2 "content" with
                  | JStr s => JNum (Z.of_nat (js_length s))
                  | _ => JUndefined
                  end |}.

(** Lines 148-152: one entry of the legacy array. *)
Definition file_of_legacy (f : JsVal) : Handler FileEntry :=
  path ← lift (prop f "path");
  is_dir ← lift (prop f "is_dir");
  size ← lift (prop f "size");
  mret {| file_path := path; file_is_dir := is_dir; file_size := size |}.

(** Lines 122-157. *)
Definition process_workspace (channel : string) (state : JsVal) : Handler unit :=
  filesObj ← lift (prop state "files");
  workspacePath ← lift (prop state "workspacePath");
  let workspacePath := js_or workspacePath (JStr cwd) in
  if truthy filesObj && bool_decide (typeof filesObj = TObject) && negb (isArray filesObj)
  then
    let files := file_of_entry <$> entries filesObj in
    if bool_decide (0 < length files)
    then send channel (EvWorkspace files workspacePath)
    else skip
  else if isArray filesObj
  then
    if bool_decide (0 < length (elems filesObj))
    then files ← map_each file_of_legacy (elems filesObj);
         send channel (EvWorkspace files workspacePath)
    else skip
  else skip.

(** [raw ? new Date(raw) : undefined] *)
Definition optional_date (raw : JsVal) : Handler (option JsDate) :=
  if truthy raw then d ← lift (date_of raw); mret (Some d) else mret None.

Definition subagent_of (s : JsVal) : Handler Subagent :=
  id ← lift (prop s "id");
  id ← or_uuid id;
  name ← lift (prop s "name");
  type ← lift (prop s "type");
  description ← lift (prop s "description");
  status ← lift (prop s "status");
  startedAt ← lift (prop s "startedAt");
  startedAt ← optional_date startedAt;
  completedAt ← lift (prop s "completedAt");
  completedAt ← optional_date completedAt;
  mret {| sub_id := id;
          sub_name := js_or name (js_or type (JStr "Subagent"));
          sub_description := js_or description (JStr "");
          sub_status := js_or status (JStr "pending");
          sub_startedAt := startedAt;
          sub_completedAt := completedAt |}.

(** Lines 160-184. *)
Definition process_subagents (channel : string) (state : JsVal) : Handler unit :=
  subagentsRaw ← lift (prop state "subagents");
  if truthy subagentsRaw && isArray subagentsRaw
     && bool_decide (0 < length (elems subagentsRaw))
  then subagents ← map_each subagent_of (elems subagentsRaw);
       send channel (EvSubagents subagents)
  else skip.

(** Lines 187-198. *)
Definition process_interrupt (channel : string) (state : JsVal) : Handler unit :=
  interrupt ← lift (prop state "__interrupt__");
  if truthy interrupt
  then id ← lift (prop interrupt "id");
       id ← or_uuid id;
       tool_call ← lift (prop interrupt "tool_call");
       send channel (EvInterrupt {| req_id := id;
                                    req_tool_call := tool_call;
                                    req_allowed_decisions := ["approve"; "reject"; "edit"] |})
  else skip.

(** Lines 55-198: the body of the loop over the stream, after the abort
    check. *)
Definition process_chunk (channel : string) (state : JsVal) : Handler unit :=
  process_messages channel state;;
  process_todos channel state;;
  process_workspace channel state;;
  process_subagents channel state;;
  process_interrupt channel state.

(** The snapshots [agent.stream] hands over, one per pull, until it is
    exhausted or a pull throws.  Leaving the loop by [break] closes the
    stream, which is taken not to throw. *)
Inductive AgentStream :=
  | Exhausted
  | Raises (e : Thrown)
  | Yields (chunk : JsVal) (rest : AgentStream).

(** What [createAgentRuntime] and [agent.stream] do for one invocation. *)
Inductive AgentRuntime :=
  | CreateThrows (e : Thrown)
  | StreamThrows (e : Thrown)
  | Streams (stream : AgentStream).

(** [abortController.signal.aborted], as the check at line 52 reads it
    for the [i]-th snapshot handed over (counted from 0).  [Some k]:
    [agent:cancel] aborts the controller before the [k]-th snapshot is
    handed over, so that snapshot's check is the first to see it; [None]:
    the controller is never aborted. *)
Definition aborted (cancelled_before : option nat) (i : nat) : bool :=
  match cancelled_before with
  | Some k => bool_decide (k ≤ i)
  | None => false
  end.

(** Lines 51-199. *)
Fixpoint stream_loop (channel : string) (cancelled_before : option nat)
    (i : nat) (stream : AgentStream) : Handler unit :=
  match stream with
  | Exhausted => mret ()
  | Raises e => mthrow e
  | Yields chunk rest =>
      if aborted cancelled_before i then skip
      else process_chunk channel chunk;;
           stream_loop channel cancelled_before (S i) rest
  end.

(** Lines 29-48. *)
Definition open_stream (runtime : AgentRuntime) : Handler AgentStream :=
  match runtime with
  | CreateThrows e => mthrow e
  | StreamThrows e => mthrow e
  | Streams stream => mret stream
  end.

(** [try { body } catch (error) { handler(error) }] *)
Definition try_catch (body : Handler unit) (handler : Thrown → Handler unit) : Handler unit :=
  λ s, match body s with
       | (s1, out1, Normal _) => (s1, out1, Normal ())
       | (s1, out1, Throw e) => let '(s2, out2, r) := handler e s1 in (s2, out1 ++ out2, r)
       end.

(** Line 210. *)
Definition error_message (e : Thrown) : string :=
  match e with
  | ThrownError message => message
  | ThrownOther => "Unknown error"
  end.

Record Invocation := {
  threadId : string;
  message : string;
  (** [BrowserWindow.fromWebContents(event.sender)] found a window *)
  has_window : bool;
  runtime : AgentRuntime;
  cancelled_before : option nat }.

Definition channel_of (threadId : string) : string := "agent:stream:" +:+ threadId.

Definition initial_state : SessionState :=
  {| seenMessageIds := ∅; uuid_draws := 0; clock_reads := 0 |}.

(** Lines 27-212: the [try] statement. *)
Definition session (inv : Invocation) : Handler unit :=
  let channel := channel_of (threadId inv) in
  try_catch
    (stream ← open_stream (runtime inv);
     stream_loop channel (cancelled_before inv) 0 stream;;
     send channel (EvDone JNull))
    (λ error, send channel (EvError (error_message error))).

(** Lines 13-216: everything the handler sends for one invocation. *)
Definition agent_invoke (inv : Invocation) : list Sent :=
  if has_window inv then sent (session inv initial_state) else [].

End Invoke.

(** ** The [agent:interrupt] handler *)

(** Modelled from the spec: [HITLDecision] is declared in [../types], which
    is not among the sources; the spec gives it a type, one of approve,
    reject and edit, and an optional payload.  The handler compares the
    type with string literals, so it is kept as a string. *)
Record HITLDecision := {
  decision_type : string;
  decision_payload : JsVal }.

(** The calls the handler makes on the agent runtime. *)
Inductive RuntimeCall :=
  | CreateAgentRuntime
  | AgentInvoke (input : JsVal) (thread_id : string).

(** What the runtime answers: [createAgentRuntime()], and
    [agent.invoke(null, config)] for a thread. *)
Record ResumeRuntime := {
  create_outcome : Completion unit;
  invoke_outcome : string → Completion unit }.

(** Lines 219-236: the calls made, and whether the handler's promise
    resolves or rejects. *)
Definition agent_interrupt (rt : ResumeRuntime) (threadId : string)
    (decision : HITLDecision) : list RuntimeCall * Completion unit :=
  match create_outcome rt with
  | Throw e => ([CreateAgentRuntime], Throw e)
  | Normal _ =>
      if String.eqb (decision_type decision) "approve"
      then ([CreateAgentRuntime; AgentInvoke JNull threadId], invoke_outcome rt threadId)
      else if String.eqb (decision_type decision) "reject"
      then ([CreateAgentRuntime], Normal ())
      else if String.eqb (decision_type decision) "edit"
      then ([CreateAgentRuntime], Normal ())
      else ([CreateAgentRuntime], Normal ())
  end.

(** ** Reading the events sent *)

Definition is_terminal (ev : StreamEvent) : bool :=
  match ev with
  | EvDone _ | EvError _ => true
  | _ => false
  end.

Definition is_message (ev : StreamEvent) : bool :=
  match ev with EvMessage _ => true | _ => false end.

(** The identifier a Message event carries, as the tracker compares it. *)
Definition message_key (x : Sent) : option Key :=
  match x.2 with
  | EvMessage m => Some (key_of (msg_id m))
  | _ => None
  end.

Definition message_keys (log : list Sent) : list Key := omap message_key log.

(** [carries k x]: [x] is a Message event whose identifier is [k]. *)
Definition carries (k : Key) (x : Sent) : Prop :=
  message_key x = Some k.

Global Instance carries_dec k x : Decision (carries k x).
Proof. unfold carries. apply _. Defined.

(** The items the loop over [state.messages] visits. *)
Definition message_items (state : JsVal) : list JsVal :=
  match prop state "messages" with
  | Normal messages => elems messages
  | Throw _ => []
  end.

(** ** Properties of handler computations

    A property of what a computation sends and of how it changes the state
    that holds for doing nothing and composes in sequence holds for every
    computation built from parts that have it. *)

Class Sequential (R : SessionState → list Sent → SessionState → Prop) := {
  seq_nil : ∀ s, R s [] s;
  seq_app : ∀ s o1 s1 o2 s2, R s o1 s1 → R s1 o2 s2 → R s (o1 ++ o2) s2 }.

Definition obeys (R : SessionState → list Sent → SessionState → Prop)
    {A} (m : Handler A) : Prop :=
  ∀ s, R s (sent (m s)) (final (m s)).

(** [a] is a value [m] can return. *)
Definition returns {A} (m : Handler A) (a : A) : Prop :=
  ∃ s, outcome (m s) = Normal a.

(** Everything sent satisfies [φ]. *)
Definition sends_only (φ : Sent → Prop) : SessionState → list Sent → SessionState → Prop :=
  λ _ o _, Forall φ o.

(** An event the loop over the stream may send on [channel]: any but the
    two that end a session. *)
Definition streamed_on (channel : string) (x : Sent) : Prop :=
  x.1 = channel ∧ is_terminal x.2 = false.

(** A Workspace event lists at least one file. *)
Definition workspace_nonempty (x : Sent) : Prop :=
  match x.2 with
  | EvWorkspace files _ => files ≠ []
  | _ => True
  end.

(** [undefined] and [null], the values a property read throws on. *)
Definition nullish (v : JsVal) : bool :=
  match v with JUndefined | JNull => true | _ => false end.

(** The statuses the Todo type allows. *)
Definition known_status (v : JsVal) : Prop :=
  ∃ s, v = JStr s ∧ s ∈ ["pending"; "in_progress"; "completed"; "cancelled"].

(** How line 114 derives a Todo's status from the raw item. *)
Definition status_rule (item : JsVal) (t : Todo) : Prop :=
  ∃ raw, prop item "status" = Normal raw
         ∧ todo_status t = js_or raw (JStr "pending")
         ∧ (known_status (todo_status t) ↔ truthy raw = false ∨ known_status raw).

(** A Todos event holds one Todo per raw item of the snapshot, each with
    the status [status_rule] gives. *)
Definition todos_follow_rule (state : JsVal) (x : Sent) : Prop :=
  match x.2 with
  | EvTodos out =>
      ∃ todos, prop state "todos" = Normal todos ∧ Forall2 status_rule (elems todos) out
  | _ => True
  end.

(** A Message event comes from an item of the snapshot whose derived role
    is assistant and whose extracted content, the event's, is not empty. *)
Definition message_from_item `{Platform} (state : JsVal) (x : Sent) : Prop :=
  match x.2 with
  | EvMessage m =>
      msg_role m = RAssistant
      ∧ msg_content m ≠ ""
      ∧ ∃ item, item ∈ message_items state
                ∧ derive_role item = Normal RAssistant
                ∧ extract_content item = Normal (msg_content m)
  | _ => True
  end.

(** The tracker only grows; the identifiers of the Message events sent are
    pairwise distinct, were not in the tracker before and are in it after. *)
Definition deduplicates : SessionState → list Sent → SessionState → Prop :=
  λ s o s',
    seenMessageIds s ⊆ seenMessageIds s'
    ∧ NoDup (message_keys o)
    ∧ ∀ k, k ∈ message_keys o → k ∈ seenMessageIds s' ∧ k ∉ seenMessageIds s.

(** No Message event is sent, the tracker is left as it was, and
    identifiers are only drawn, never given back. *)
Definition silent : SessionState → list Sent → SessionState → Prop :=
  λ s o s',
    seenMessageIds s' = seenMessageIds s
    ∧ uuid_draws s ≤ uuid_draws s'
    ∧ Forall (λ x, is_message x.2 = false) o.

(** The snapshots a stream holds. *)
Fixpoint chunks (stream : AgentStream) : list JsVal :=
  match stream with
  | Yields chunk rest => chunk :: chunks rest
  | Exhausted | Raises _ => []
  end.


Section Generated.
Context `{Platform}.


(** The tracker holds no identifier the generator has yet to hand out. *)
Definition drawn_only (s : SessionState) : Prop :=
  ∀ i, KStr (randomUUID i) ∈ seenMessageIds s → i < uuid_draws s.

Definition keeps_drawn_only : SessionState → list Sent → SessionState → Prop :=
  λ s _ s', drawn_only s → drawn_only s'.



End Generated.

(** ** Inputs to evaluate the handlers on *)

(** A platform to evaluate the handlers on. *)
Definition demo_platform : Platform :=
  {| randomUUID n := "uuid-" +:+ pretty n;
     clock n := Z.of_nat n;
     date_of v := Normal (match v with JNum t => DateAt t | _ => InvalidDate end);
     to_string v := Normal (match v with
                            | JNum n => pretty n
                            | JBool true => "true"
                            | _ => "[object Object]"
                            end);
     cwd := "/workspace" |}.

(** An invocation from a sender that has no window. *)
Definition no_window_invocation : Invocation :=
  {| threadId := "t1";
     message := "hello";
     has_window := false;
     runtime := Streams Exhausted;
     cancelled_before := None |}.

(** An invocation whose stream ends at once. *)
Definition plain_invocation : Invocation :=
  {| threadId := "t1";
     message := "hello";
     has_window := true;
     runtime := Streams Exhausted;
     cancelled_before := None |}.

(** Cancelled before the first pull, and the first pull throws. *)
Definition aborted_stream_invocation : Invocation :=
  {| threadId := "t1";
     message := "hello";
     has_window := true;
     runtime := Streams (Raises (ThrownError "Aborted"));
     cancelled_before := Some 0 |}.

(** Cancelled before the first pull, which hands over a snapshot. *)
Definition cancelled_invocation : Invocation :=
  {| threadId := "t1";
     message := "hello";
     has_window := true;
     runtime :=
       Streams (Yields (JObj 0 [("messages",
                  JArr 1 [JObj 2 [("id", JStr "m1"); ("content", JStr "hello")]])])
                  Exhausted);
     cancelled_before := Some 0 |}.

(** One snapshot, whose todos field is the empty list. *)
Definition empty_todos_invocation : Invocation :=
  {| threadId := "t1";
     message := "hello";
     has_window := true;
     runtime := Streams (Yields (JObj 0 [("todos", JArr 1 [])]) Exhausted);
     cancelled_before := None |}.

(** One snapshot, with a todo whose status is none of the four. *)
Definition odd_status_invocation : Invocation :=
  {| threadId := "t1";
     message := "hello";
     has_window := true;
     runtime :=
       Streams (Yields (JObj 0 [("todos",
                  JArr 1 [JObj 2 [("id", JStr "1");
                                  ("content", JStr "write tests");
                                  ("status", JStr "blocked")]])])
                  Exhausted);
     cancelled_before := None |}.

(** A tool's answer, as a message item. *)
Definition tool_echo : JsVal :=
  JObj 2 [("id", JStr "call-1");
          ("_getType", JFun 3 "_getType" (Normal (JStr "tool")));
          ("content", JStr "42 files")].

(** Two assistant messages, one with an identifier and one without, in a
    snapshot that the stream hands over twice. *)
Definition named_message : JsVal :=
  JObj 2 [("id", JStr "m1");
          ("_getType", JFun 3 "_getType" (Normal (JStr "ai")));
          ("content", JStr "hello")].








(** A runtime that answers every call, and one that cannot be created. *)
Definition healthy_runtime : ResumeRuntime :=
  {| create_outcome := Normal ();
     invoke_outcome := λ _, Normal () |}.

Definition broken_runtime : ResumeRuntime :=
  {| create_outcome := Throw (ThrownError "No model configured");
     invoke_outcome := λ _, Normal () |}.

Definition reject_decision : HITLDecision :=
  {| decision_type := "reject"; decision_payload := JUndefined |}.

Definition approve_decision : HITLDecision :=
  {| decision_type := "approve"; decision_payload := JUndefined |}.

Definition edit_decision : HITLDecision :=
  {| decision_type := "edit";
     decision_payload := JObj 0 [("path", JStr "notes.txt")] |}.

(** ** The table of active runs

    [AbortController] objects live in the process's heap: each has a
    reference and its flag [signal.aborted]; the module-level map
    [activeRuns] takes a thread to the reference of the controller
    registered for it.  The handlers touch the table at three places, which
    other handlers' steps can come between. *)

Record Process := {
  controllers : gmap nat bool;
  activeRuns : gmap string nat }.

(** The module just loaded. *)
Definition no_runs : Process := {| controllers := ∅; activeRuns := ∅ |}.

(** Lines 24-25: [new AbortController()] and [activeRuns.set]. *)
Definition register_run (threadId : string) (p : Process) : Process * nat :=
  let c := fresh (dom (controllers p)) in
  ({| controllers := <[c := false]> (controllers p);
      activeRuns := <[threadId := c]> (activeRuns p) |}, c).

(** Line 214: the [finally] clause of [agent:invoke]. *)
Definition unregister_run (threadId : string) (p : Process) : Process :=
  {| controllers := controllers p;
     activeRuns := delete threadId (activeRuns p) |}.

(** Lines 239-245: the [agent:cancel] handler. *)
Definition agent_cancel (threadId : string) (p : Process) : Process :=
  match activeRuns p !! threadId with
  | Some c => {| controllers := <[c := true]> (controllers p);
                 activeRuns := delete threadId (activeRuns p) |}
  | None => p
  end.

(** [controller.signal.aborted] *)
Definition signal_aborted (c : nat) (p : Process) : bool :=
  default false (controllers p !! c).

(** One step on the table, by one of the handlers. *)
Inductive RunStep :=
  | Registers (threadId : string)
  | Unregisters (threadId : string)
  | Cancels (threadId : string).

Definition run_step (p : Process) (step : RunStep) : Process :=
  match step with
  | Registers threadId => (register_run threadId p).1
  | Unregisters threadId => unregister_run threadId p
  | Cancels threadId => agent_cancel threadId p
  end.

Definition run_steps (steps : list RunStep) (p : Process) : Process :=
  foldl run_step p steps.

(** Every controller in the table is allocated and not aborted, and no
    controller is in the table twice. *)
Definition table_ok (p : Process) : Prop :=
  (∀ t c, activeRuns p !! t = Some c → controllers p !! c = Some false)
  ∧ (∀ t t' c, activeRuns p !! t = Some c → activeRuns p !! t' = Some c → t = t').

(** A controller that is not aborted and that the table does not hold. *)
Definition orphaned (c : nat) (p : Process) : Prop :=
  controllers p !! c = Some false ∧ ∀ t, activeRuns p !! t ≠ Some c.

(** ** More readings of the events sent *)

Definition is_todos (ev : StreamEvent) : bool :=
  match ev with EvTodos _ => true | _ => false end.

Definition is_workspace (ev : StreamEvent) : bool :=
  match ev with EvWorkspace _ _ => true | _ => false end.

Definition is_subagents (ev : StreamEvent) : bool :=
  match ev with EvSubagents _ => true | _ => false end.

Definition is_interrupt (ev : StreamEvent) : bool :=
  match ev with EvInterrupt _ => true | _ => false end.

(** No event, or one event of the kind [kind]. *)
Definition at_most_one (kind : StreamEvent → bool) (log : list Sent) : Prop :=
  log = [] ∨ ∃ x, log = [x] ∧ kind x.2 = true.

(** A Subagents event lists at least one subagent. *)
Definition subagents_nonempty (x : Sent) : Prop :=
  match x.2 with
  | EvSubagents subagents => subagents ≠ []
  | _ => True
  end.

(** The stream cut after [k] snapshots: what is left of it when the loop
    breaks at the check of the [k]-th snapshot. *)
Fixpoint truncate (k : nat) (stream : AgentStream) {struct stream} : AgentStream :=
  match stream with
  | Yields chunk rest =>
      match k with
      | 0 => Exhausted
      | S k' => Yields chunk (truncate k' rest)
      end
  | Exhausted => Exhausted
  | Raises e => Raises e
  end.

(** The text a content block contributes: its [text] when a string. *)
Definition text_of (block : JsVal) : string :=
  match optional_prop block "text" with
  | JStr s => s
  | _ => ""
  end.

(** [block.type === 'text'] *)
Definition is_text_block (block : JsVal) : bool :=
  is_str (optional_prop block "type") "text".

(** A block that can be read and whose [text] is a string or falsy. *)
Definition plain_block (block : JsVal) : Prop :=
  nullish block = false
  ∧ match optional_prop block "text" with
    | JStr _ => True
    | text => truthy text = false
    end.

Definition concat_strings (parts : list string) : string :=
  foldr String.append "" parts.

(** The tracker holds, besides what it held, the identifiers of the Message
    events sent. *)
Definition tracks_sent : SessionState → list Sent → SessionState → Prop :=
  λ s o s',
    seenMessageIds s' = list_to_set (message_keys o) ∪ seenMessageIds s.

(** The item has an identifier of its own. *)
Definition has_id (item : JsVal) : Prop :=
  ∃ id, prop item "id" = Normal id ∧ truthy id = true.

(** A value with no [substring] method: not a string, not an object. *)
Definition no_substring (v : JsVal) : Prop :=
  match v with
  | JStr _ | JObj _ _ => False
  | _ => True
  end.

(** An item that is not sent whatever the tracker holds: its role is not
    assistant, or its content is empty. *)
Definition unqualified `{Platform} (msg : JsVal) : Prop :=
  ∃ role content,
    derive_role msg = Normal role
    ∧ extract_content msg = Normal content
    ∧ bool_decide (role = RAssistant) && negb (content =? "")%string = false.

(** A todo item that can be read and has no identifier of its own. *)
Definition idless_todo (t : JsVal) : Prop :=
  nullish t = false ∧ truthy (optional_prop t "id") = false.

(** The identifier of a message item, as the tracker compares it. *)
Definition item_key (item : JsVal) : Key := key_of (optional_prop item "id").

(** A session on [stream] for a sender with a window. *)
Definition streaming (threadId message : string) (stream : AgentStream)
    (cancelled_before : option nat) : Invocation :=
  {| threadId := threadId;
     message := message;
     has_window := true;
     runtime := Streams stream;
     cancelled_before := cancelled_before |}.

(** * Verification *)

Section Obeys.
Context (R : SessionState → list Sent → SessionState → Prop) `{!Sequential R}.

Lemma obeys_ret {A} (a : A) : obeys R (mret a).
Proof. intros s. apply seq_nil. Qed.

Lemma obeys_throw {A} (e : Thrown) : obeys R (mthrow e : Handler A).
Proof. intros s. apply seq_nil. Qed.

Lemma obeys_skip : obeys R skip.
Proof. apply obeys_ret. Qed.

Lemma obeys_lift {A} (c : Completion A) : obeys R (lift c).
Proof. destruct c; [apply obeys_ret | apply obeys_throw]. Qed.

Lemma obeys_bind {A B} (m : Handler A) (f : A → Handler B) :
  obeys R m → (∀ a, returns m a → obeys R (f a)) → obeys R (m ≫= f).
Proof.
  intros Hm Hf s. specialize (Hm s).
  unfold mbind, handler_bind, sent, final in *.
  destruct (m s) as [[s1 o1] [a|e]] eqn:Hms; simpl in *; [|done].
  assert (returns m a) as Ha by (exists s; by rewrite Hms).
  specialize (Hf a Ha s1). unfold sent, final in Hf.
  destruct (f a s1) as [[s2 o2] r]; simpl in *.
  by eapply seq_app.
Qed.

Lemma obeys_for_each {A} (body : A → Handler unit) (l : list A) :
  (∀ x, x ∈ l → obeys R (body x)) → obeys R (for_each body l).
Proof.
  induction l as [|x l IH]; intros Hbody; simpl.
  - apply obeys_ret.
  - apply obeys_bind.
    + apply Hbody. left.
    + intros _ _. apply IH. intros y Hy. apply Hbody. by right.
Qed.

Lemma obeys_map_each {A B} (f : A → Handler B) (l : list A) :
  (∀ x, x ∈ l → obeys R (f x)) → obeys R (map_each f l).
Proof.
  induction l as [|x l IH]; intros Hf; simpl.
  - apply obeys_ret.
  - apply obeys_bind; [apply Hf; left|].
    intros y _. apply obeys_bind.
    + apply IH. intros z Hz. apply Hf. by right.
    + intros ys _. apply obeys_ret.
Qed.

Lemma obeys_try_catch (body : Handler unit) (handler : Thrown → Handler unit) :
  obeys R body → (∀ e, obeys R (handler e)) → obeys R (try_catch body handler).
Proof.
  intros Hb Hh s. specialize (Hb s).
  unfold try_catch, sent, final in *.
  destruct (body s) as [[s1 o1] [a|e]]; simpl in *; [done|].
  specialize (Hh e s1). unfold sent, final in Hh.
  destruct (handler e s1) as [[s2 o2] r]; simpl in *.
  by eapply seq_app.
Qed.

Lemma obeys_open_stream runtime : obeys R (open_stream runtime).
Proof. destruct runtime; [apply obeys_throw..|apply obeys_ret]. Qed.

(** A property of the processing of each snapshot of a stream is a
    property of the loop over the stream. *)
Lemma obeys_stream_loop `{Platform} channel c i stream :
  (∀ state, state ∈ chunks stream → obeys R (process_chunk channel state)) →
  obeys R (stream_loop channel c i stream).
Proof.
  revert i. induction stream as [|e|chunk rest IH]; intros i Hchunks; simpl.
  - apply obeys_ret.
  - apply obeys_throw.
  - destruct (aborted c i); [apply obeys_skip|].
    apply obeys_bind; [apply Hchunks; left|].
    intros _ _. apply IH. intros state Hstate. apply Hchunks. by right.
Qed.

(** A property that every snapshot's processing has, and both ways of
    ending a session, is a property of the session. *)
Lemma obeys_session `{Platform} inv :
  (∀ state, obeys R (process_chunk (channel_of (threadId inv)) state)) →
  (∀ ev, is_terminal ev = true → obeys R (send (channel_of (threadId inv)) ev)) →
  obeys R (session inv).
Proof.
  intros Hchunk Hend. unfold session. apply obeys_try_catch.
  - apply obeys_bind; [apply obeys_open_stream|]. intros stream _.
    apply obeys_bind; [apply obeys_stream_loop; auto|]. intros _ _.
    by apply Hend.
  - intros e. by apply Hend.
Qed.

End Obeys.

(** ** What a computation returns *)

Lemma returns_lift {A} (c : Completion A) (a : A) : returns (lift c) a → c = Normal a.
Proof. intros [s Hs]. by destruct c. Qed.

Lemma bind_normal {A B} (m : Handler A) (f : A → Handler B) s s' o b :
  (m ≫= f) s = (s', o, Normal b) →
  ∃ s1 o1 a o2, m s = (s1, o1, Normal a) ∧ f a s1 = (s', o2, Normal b) ∧ o = o1 ++ o2.
Proof.
  unfold mbind, handler_bind.
  destruct (m s) as [[s1 o1] [a|e]]; [|done].
  destruct (f a s1) as [[s2 o2] r] eqn:Hf. intros [= <- <- ->].
  by exists s1, o1, a, o2.
Qed.

Lemma map_each_returns_length {A B} (f : A → Handler B) (l : list A) ys :
  returns (map_each f l) ys → length ys = length l.
Proof.
  intros [s Hs]. revert s ys Hs.
  induction l as [|x l IH]; intros s ys; simpl.
  - by intros [= <-].
  - unfold outcome.
    destruct ((f x ≫= _) s) as [[s' o] r] eqn:Hrun; simpl. intros ->.
    apply bind_normal in Hrun as (s1 & o1 & y & o2 & _ & Hrest & _).
    apply bind_normal in Hrest as (s2 & o3 & ys' & o4 & Hmap & Hret & _).
    injection Hret as <- <- <-. simpl. f_equal.
    apply (IH s1). unfold outcome. by rewrite Hmap.
Qed.

(** Runs the pure steps of a handler applied to a state. *)
Ltac handler_simpl :=
  repeat (unfold mbind, handler_bind, mret, handler_ret, mthrow, handler_throw,
            skip, lift, send, sent, final, outcome; simpl).

(** Unfolds one layer of a handler down to its primitive steps, keeping
    what is known of each value read and each test made. *)
Ltac obeys_step :=
  lazymatch goal with
  | |- obeys _ (mret _) => apply obeys_ret; try apply _
  | |- obeys _ skip => apply obeys_skip; try apply _
  | |- obeys _ (mthrow _) => apply obeys_throw; try apply _
  | |- obeys _ (lift _) => apply obeys_lift; try apply _
  | |- obeys _ (mbind _ _) =>
      apply obeys_bind;
      [ try apply _
      | 
      | let a := fresh "a" in
        let Ha := fresh "Ha" in
        intros a Ha; try apply returns_lift in Ha ]
  | |- obeys _ (for_each _ _) => apply obeys_for_each; [try apply _ | intros ? ?]
  | |- obeys _ (map_each _ _) => apply obeys_map_each; [try apply _ | intros ? ?]
  | |- obeys _ (if ?b then _ else _) => destruct b eqn:?
  | |- obeys _ (match ?x with _ => _ end) => destruct x eqn:?
  | |- obeys _ (or_uuid _) => unfold or_uuid
  | |- obeys _ (optional_date _) => unfold optional_date
  | |- obeys _ (todo_of _) => unfold todo_of
  | |- obeys _ (file_of_legacy _) => unfold file_of_legacy
  | |- obeys _ (subagent_of _) => unfold subagent_of
  end.

Section SendsOnly.
Context `{Platform} (φ : Sent → Prop).

Global Instance sends_only_sequential : Sequential (sends_only φ).
Proof.
  split; unfold sends_only.
  - intros _. constructor.
  - intros _ o1 _ o2 _ H1 H2. by apply Forall_app.
Qed.

Lemma sends_only_send channel ev : φ (channel, ev) → obeys (sends_only φ) (send channel ev).
Proof. intros Hev s. unfold sends_only, sent, send; simpl. by repeat constructor. Qed.

Lemma sends_only_seen_has k : obeys (sends_only φ) (seen_has k).
Proof. intros s. constructor. Qed.

Lemma sends_only_seen_add k : obeys (sends_only φ) (seen_add k).
Proof. intros s. constructor. Qed.

Lemma sends_only_new_uuid : obeys (sends_only φ) new_uuid.
Proof. intros s. constructor. Qed.

Lemma sends_only_new_date : obeys (sends_only φ) new_date.
Proof. intros s. constructor. Qed.

End SendsOnly.

Create HintDb handlers discriminated.
#[global] Hint Resolve sends_only_seen_has sends_only_seen_add
  sends_only_new_uuid sends_only_new_date : handlers.

(** The primitive steps left by [obeys_step], for a property of the events
    sent: each [send] must send an event the property admits. *)
Ltac sends_only_auto :=
  repeat first
    [ obeys_step
    | solve [auto with handlers]
    | apply sends_only_send ].

Section Streamed.
Context `{Platform} (channel : string).

Lemma process_message_streamed msg :
  obeys (sends_only (streamed_on channel)) (process_message channel msg).
Proof. unfold process_message. sends_only_auto; done. Qed.

Lemma process_chunk_streamed state :
  obeys (sends_only (streamed_on channel)) (process_chunk channel state).
Proof.
  unfold process_chunk, process_messages, process_todos, process_workspace,
    process_subagents, process_interrupt.
  sends_only_auto; try done.
  apply process_message_streamed.
Qed.

Lemma stream_loop_streamed c i stream :
  obeys (sends_only (streamed_on channel)) (stream_loop channel c i stream).
Proof. apply obeys_stream_loop; [apply _|intros; apply process_chunk_streamed]. Qed.

End Streamed.

(** ** C1: the terminal event *)

(** C1, as stated, fails: when [BrowserWindow.fromWebContents] finds no
    window the handler returns at once (lines 19-22) and the invocation
    sends nothing, so neither Done nor Error. *)
Lemma invoke_without_window_sends_no_terminal_event :
  @agent_invoke demo_platform no_window_invocation = [].
Proof. reflexivity. Qed.

(** C1, amended: an invocation whose sender has a window sends exactly one
    terminal event, a Done or an Error, it is the last event sent, and
    everything before it is a non-terminal event on the session's channel. *)
Theorem invoke_with_window_ends_with_one_terminal_event `{Platform} (inv : Invocation) :
  has_window inv = true →
  ∃ pre t,
    agent_invoke inv = pre ++ [(channel_of (threadId inv), t)]
    ∧ (t = EvDone JNull ∨ ∃ msg, t = EvError msg)
    ∧ Forall (streamed_on (channel_of (threadId inv))) pre.
Proof.
  intros Hwindow. unfold agent_invoke. rewrite Hwindow.
  unfold session, try_catch, sent.
  destruct (runtime inv) as [e|e|stream]; simpl.
  - exists [], (EvError (error_message e)). split_and!; [done|eauto|constructor].
  - exists [], (EvError (error_message e)). split_and!; [done|eauto|constructor].
  - pose proof (stream_loop_streamed (channel_of (threadId inv))
                  (cancelled_before inv) 0 stream initial_state) as Hloop.
    unfold sends_only, sent in Hloop.
    unfold mbind, handler_bind at 1; simpl.
    unfold mbind, handler_bind at 1; simpl.
    destruct (stream_loop _ _ _ _ initial_state) as [[s1 o1] [[]|e]]; simpl in *.
    + exists o1, (EvDone JNull). split_and!; [done|eauto|done].
    + exists o1, (EvError (error_message e)). split_and!; [done|eauto|done].
Qed.

Lemma invoke_with_window_ends_with_one_terminal_event_witness :
  has_window plain_invocation = true
  ∧ ∃ pre t,
      @agent_invoke demo_platform plain_invocation
        = pre ++ [(channel_of (threadId plain_invocation), t)]
      ∧ (t = EvDone JNull ∨ ∃ msg, t = EvError msg)
      ∧ Forall (streamed_on (channel_of (threadId plain_invocation))) pre.
Proof.
  split; [reflexivity|].
  apply (@invoke_with_window_ends_with_one_terminal_event demo_platform plain_invocation).
  reflexivity.
Defined.

(** ** C5: cancellation before the first snapshot *)

(** C5, as stated, fails: the token is signaled before anything is pulled,
    the first pull throws, and the [catch] clause sends an Error; no Done
    is sent. *)
Lemma cancelled_session_whose_first_pull_throws_sends_error :
  @agent_invoke demo_platform aborted_stream_invocation
  = [("agent:stream:t1", EvError "Aborted")].
Proof. reflexivity. Qed.

(** C5, amended: when the token is signaled before the first snapshot is
    pulled, the runtime is created, the stream opens and its first pull
    does not throw, the session sends one event only, a Done. *)
Theorem cancelled_before_first_snapshot_sends_only_done `{Platform}
    (inv : Invocation) (stream : AgentStream) :
  has_window inv = true →
  runtime inv = Streams stream →
  (∀ e, stream ≠ Raises e) →
  cancelled_before inv = Some 0 →
  agent_invoke inv = [(channel_of (threadId inv), EvDone JNull)].
Proof.
  intros Hwindow Hruntime Hpull Hcancel.
  unfold agent_invoke, session, try_catch, sent.
  rewrite Hwindow, Hruntime, Hcancel.
  destruct stream as [|e|chunk rest]; [done|by destruct (Hpull e)|done].
Qed.

Lemma cancelled_before_first_snapshot_sends_only_done_witness :
  @agent_invoke demo_platform cancelled_invocation
  = [(channel_of (threadId cancelled_invocation), EvDone JNull)].
Proof.
  apply (@cancelled_before_first_snapshot_sends_only_done demo_platform
           cancelled_invocation
           (Yields (JObj 0 [("messages",
              JArr 1 [JObj 2 [("id", JStr "m1"); ("content", JStr "hello")]])])
              Exhausted));
    [reflexivity|reflexivity|discriminate|reflexivity].
Defined.

(** ** C3, C4: answering an interrupt *)

(** C3, as stated, fails: thread t1 ran a session that sent no Interrupt
    event, and answering it, with reject or with approve, resolves without
    an error. *)
Lemma resume_without_pending_interrupt_resolves :
  @agent_invoke demo_platform plain_invocation = [("agent:stream:t1", EvDone JNull)]
  ∧ agent_interrupt healthy_runtime "t1" reject_decision = ([CreateAgentRuntime], Normal ())
  ∧ agent_interrupt healthy_runtime "t1" approve_decision
    = ([CreateAgentRuntime; AgentInvoke JNull "t1"], Normal ()).
Proof. done. Qed.

(** C3, amended: the handler makes no check for a pending interrupt; when
    it fails, it fails with what the runtime threw, creating the runtime
    or, for approve, continuing the thread. *)
Theorem resume_fails_only_with_runtime_fault (rt : ResumeRuntime) (threadId : string)
    (decision : HITLDecision) (e : Thrown) :
  (agent_interrupt rt threadId decision).2 = Throw e →
  create_outcome rt = Throw e
  ∨ (decision_type decision = "approve" ∧ invoke_outcome rt threadId = Throw e).
Proof.
  unfold agent_interrupt.
  destruct (create_outcome rt) as [[]|e']; simpl; [|intros [= ->]; by left].
  destruct (String.eqb_spec (decision_type decision) "approve") as [Happrove|_].
  - intros Hinvoke. by right.
  - by repeat case_match.
Qed.

Lemma resume_fails_only_with_runtime_fault_witness :
  create_outcome broken_runtime = Throw (ThrownError "No model configured")
  ∨ (decision_type approve_decision = "approve"
     ∧ invoke_outcome broken_runtime "t1" = Throw (ThrownError "No model configured")).
Proof.
  apply (resume_fails_only_with_runtime_fault broken_runtime "t1" approve_decision).
  reflexivity.
Defined.

(** C4: what the handler does for reject and for edit on a paused thread.
    Both branches are empty: the runtime is created and never called. *)
Lemma reject_and_edit_call_nothing :
  agent_interrupt healthy_runtime "t1" reject_decision = ([CreateAgentRuntime], Normal ())
  ∧ agent_interrupt healthy_runtime "t1" edit_decision = ([CreateAgentRuntime], Normal ()).
Proof. done. Qed.

(** ** C8: the Workspace event *)

Section Workspace.
Context `{Platform}.

Lemma process_chunk_workspace_nonempty channel state :
  obeys (sends_only workspace_nonempty) (process_chunk channel state).
Proof.
  unfold process_chunk, process_messages, process_todos, process_workspace,
    process_subagents, process_interrupt, process_message.
  sends_only_auto.
  all: try exact I.
  - unfold workspace_nonempty; simpl. intros Hnil.
    match goal with Hlen : bool_decide (0 < length _) = true |- _ =>
      rewrite Hnil in Hlen; apply bool_decide_eq_true in Hlen; simpl in Hlen; lia end.
  - unfold workspace_nonempty; simpl. intros ->.
    match goal with Hret : returns (map_each _ _) [] |- _ =>
      apply map_each_returns_length in Hret; simpl in Hret end.
    match goal with Hlen : bool_decide (0 < length _) = true |- _ =>
      apply bool_decide_eq_true in Hlen; lia end.
Qed.

Lemma session_workspace_nonempty inv :
  obeys (sends_only workspace_nonempty) (session inv).
Proof.
  apply obeys_session; [apply _|intros; apply process_chunk_workspace_nonempty|].
  intros ev Hev. apply sends_only_send. by destruct ev.
Qed.

End Workspace.

(** C8: every Workspace event an invocation sends lists at least one file;
    a snapshot whose files mapping is empty sends nothing, and one whose
    files mapping has the single entry a.txt with content hi sends one
    Workspace event with the one entry a.txt, not a directory, of size 2. *)
Theorem workspace_event_only_for_nonempty_file_list `{Platform}
    (inv : Invocation) (channel : string) (s : SessionState) (r0 r1 r2 : nat) :
  Forall workspace_nonempty (agent_invoke inv)
  ∧ sent (process_chunk channel (JObj r0 [("files", JObj r1 [])]) s) = []
  ∧ sent (process_chunk channel
            (JObj r0 [("files", JObj r1 [("a.txt", JObj r2 [("content", JStr "hi")])])]) s)
    = [(channel,
        EvWorkspace [{| file_path := JStr "a.txt";
                        file_is_dir := JBool false;
                        file_size := JNum 2 |}]
                    (JStr cwd))].
Proof.
  split_and!; [|done..].
  unfold agent_invoke. destruct (has_window inv); [|constructor].
  apply session_workspace_nonempty.
Qed.

(** ** C7, C9: the Todos event *)

Lemma lift_normal {A} (c : Completion A) s s' o a :
  lift c s = (s', o, Normal a) → c = Normal a ∧ s' = s ∧ o = [].
Proof. destruct c; intros [= <- <- <-]; done. Qed.

Lemma prop_not_nullish v k : nullish v = false → ∃ x, prop v k = Normal x.
Proof. destruct v; simpl; try done; eauto. Qed.

Lemma known_status_js_or raw :
  known_status (js_or raw (JStr "pending")) ↔ truthy raw = false ∨ known_status raw.
Proof.
  unfold js_or. destruct (truthy raw) eqn:Htruthy.
  - split; [by right|]. by intros [|].
  - split; [by left|]. intros _. exists "pending". split; [done|]. set_solver.
Qed.

Section Todos.
Context `{Platform}.

Lemma todo_of_readable t s :
  nullish t = false → ∃ s' todo, todo_of t s = (s', [], Normal todo).
Proof.
  intros Ht. unfold todo_of.
  destruct (prop_not_nullish t "id" Ht) as [id ->].
  destruct (prop_not_nullish t "content" Ht) as [content ->].
  destruct (prop_not_nullish t "status" Ht) as [status ->].
  unfold or_uuid. handler_simpl. destruct (truthy id); handler_simpl; eauto.
Qed.

Lemma map_each_todo_of_readable items s :
  Forall (λ t, nullish t = false) items →
  ∃ s' out, map_each todo_of items s = (s', [], Normal out) ∧ length out = length items.
Proof.
  intros Hitems. revert s.
  induction Hitems as [|t items Ht _ IH]; intros s; simpl.
  - by exists s, [].
  - destruct (todo_of_readable t s Ht) as (s1 & todo & Htodo).
    destruct (IH s1) as (s2 & out & Hrest & Hlen).
    exists s2, (todo :: out).
    unfold mbind, handler_bind at 1. rewrite Htodo.
    unfold mbind, handler_bind at 1. rewrite Hrest. simpl. by rewrite Hlen.
Qed.

Lemma todo_of_status t todo : returns (todo_of t) todo → status_rule t todo.
Proof.
  intros [s Hs]. unfold outcome in Hs.
  destruct (todo_of t s) as [[s' o] r] eqn:Hrun; simpl in Hs; subst r.
  unfold todo_of in Hrun.
  apply bind_normal in Hrun as (? & ? & id & ? & _ & Hrun & _).
  apply bind_normal in Hrun as (? & ? & id' & ? & _ & Hrun & _).
  apply bind_normal in Hrun as (? & ? & content & ? & _ & Hrun & _).
  apply bind_normal in Hrun as (? & ? & status & ? & Hstatus & Hrun & _).
  apply lift_normal in Hstatus as (Hstatus & _ & _).
  injection Hrun as <- <- <-.
  exists status. split_and!; [done|done|apply known_status_js_or].
Qed.

Lemma map_each_todo_of_status items out :
  returns (map_each todo_of items) out → Forall2 status_rule items out.
Proof.
  intros [s Hs]. revert s out Hs.
  induction items as [|t items IH]; intros s out; simpl.
  - intros [= <-]. constructor.
  - unfold outcome.
    destruct ((todo_of t ≫= _) s) as [[s' o] r] eqn:Hrun; simpl. intros ->.
    apply bind_normal in Hrun as (s1 & o1 & todo & o2 & Htodo & Hrest & _).
    apply bind_normal in Hrest as (s2 & o3 & out' & o4 & Hmap & Hret & _).
    injection Hret as <- <- <-. constructor.
    + apply todo_of_status. exists s. unfold outcome. by rewrite Htodo.
    + apply (IH s1). unfold outcome. by rewrite Hmap.
Qed.

End Todos.

(** C7, as stated, fails: a snapshot whose todos field is the empty list
    sends a Todos event, with no items. *)
Lemma empty_todos_list_sends_todos_event :
  @agent_invoke demo_platform empty_todos_invocation
  = [("agent:stream:t1", EvTodos []); ("agent:stream:t1", EvDone JNull)].
Proof. reflexivity. Qed.

(** C7, amended: the Todos extractor sends nothing when the todos field is
    absent or not a list; for a list, empty or not, whose items can be
    read it sends exactly one Todos event, with one Todo per item. *)
Theorem todos_event_for_every_list `{Platform}
    (channel : string) (state todos : JsVal) (s : SessionState) :
  prop state "todos" = Normal todos →
  (isArray todos = false → sent (process_todos channel state s) = [])
  ∧ (isArray todos = true →
     Forall (λ t, nullish t = false) (elems todos) →
     ∃ out, sent (process_todos channel state s) = [(channel, EvTodos out)]
            ∧ length out = length (elems todos)).
Proof.
  intros Htodos. unfold process_todos, sent. rewrite Htodos. simpl. split.
  - intros Harray. unfold mbind, handler_bind; simpl.
    by rewrite Harray, andb_false_r.
  - intros Harray Hitems.
    destruct todos as [| | | | |r items| |]; try done. simpl in *.
    unfold mbind, handler_bind at 1; simpl.
    destruct (map_each_todo_of_readable items s Hitems) as (s' & out & Hrun & Hlen).
    exists out. unfold mbind, handler_bind. by rewrite Hrun.
Qed.

Lemma todos_event_for_every_list_witness :
  ∃ out, sent (@process_todos demo_platform "agent:stream:t1"
                 (JObj 0 [("todos", JArr 1 [])]) initial_state)
         = [("agent:stream:t1", EvTodos out)]
         ∧ length out = 0.
Proof.
  apply (@todos_event_for_every_list demo_platform "agent:stream:t1"
           (JObj 0 [("todos", JArr 1 [])]) (JArr 1 []) initial_state);
    [reflexivity|reflexivity|constructor].
Defined.

(** C9, as stated, fails: a raw todo whose status is the string blocked is
    sent with the status blocked. *)
Lemma unknown_todo_status_is_sent_unchanged :
  @agent_invoke demo_platform odd_status_invocation
  = [("agent:stream:t1",
      EvTodos [{| todo_id := JStr "1";
                  todo_content := JStr "write tests";
                  todo_status := JStr "blocked" |}]);
     ("agent:stream:t1", EvDone JNull)].
Proof. reflexivity. Qed.

(** C9, amended: in every Todos event a snapshot sends, each Todo's status
    is the raw item's status when that is truthy and pending otherwise; it
    is one of pending, in_progress, completed and cancelled exactly when
    the raw status is falsy or already one of them. *)
Theorem todo_status_is_raw_status_or_pending `{Platform}
    (channel : string) (state : JsVal) (s : SessionState) :
  Forall (todos_follow_rule state) (sent (process_chunk channel state s)).
Proof.
  revert s.
  change (obeys (sends_only (todos_follow_rule state)) (process_chunk channel state)).
  unfold process_chunk, process_messages, process_todos, process_workspace,
    process_subagents, process_interrupt, process_message.
  sends_only_auto.
  all: try exact I.
  unfold todos_follow_rule; simpl.
  eexists; split; [eassumption|]. by apply map_each_todo_of_status.
Qed.

(** ** C6: which items become Message events *)

Section Emission.
Context `{Platform}.

Lemma process_chunk_message_from_item channel state :
  obeys (sends_only (message_from_item state)) (process_chunk channel state).
Proof.
  unfold process_chunk, process_messages, process_todos, process_workspace,
    process_subagents, process_interrupt, process_message.
  sends_only_auto.
  all: try exact I.
  unfold message_from_item, message_items; simpl.
  match goal with Hif : _ && _ = true |- _ =>
    apply andb_true_iff in Hif as [Hrole Hcontent] end.
  apply bool_decide_eq_true in Hrole as ->.
  apply negb_true_iff, String.eqb_neq in Hcontent.
  split_and!; [done..|].
  match goal with Hm : prop state "messages" = _ |- _ => rewrite Hm end.
  eauto.
Qed.

End Emission.

(** C6: every Message event a snapshot sends comes from one of its message
    items whose derived role is assistant and whose extracted content is
    not empty; a snapshot whose only message has role tool, or has empty
    extracted content, sends no Message event. *)
Theorem message_only_for_assistant_with_content `{Platform}
    (channel : string) (state : JsVal) (s : SessionState) :
  Forall (message_from_item state) (sent (process_chunk channel state s))
  ∧ ∀ r item,
      prop state "messages" = Normal (JArr r [item]) →
      derive_role item = Normal RTool ∨ extract_content item = Normal "" →
      Forall (λ x, is_message x.2 = false) (sent (process_chunk channel state s)).
Proof.
  pose proof (process_chunk_message_from_item channel state s) as Hsent.
  unfold sends_only in Hsent. split; [done|].
  intros r item Hmessages Hitem.
  eapply Forall_impl; [exact Hsent|].
  intros [c ev]. unfold message_from_item, message_items. rewrite Hmessages. simpl.
  destruct ev; try done.
  intros (_ & Hcontent & item' & Hin & Hrole & Hextract).
  apply list_elem_of_singleton in Hin as ->.
  destruct Hitem as [Htool|Hempty]; congruence.
Qed.

Lemma message_only_for_assistant_with_content_witness :
  Forall (λ x, is_message x.2 = false)
    (sent (@process_chunk demo_platform "agent:stream:t1"
             (JObj 0 [("messages", JArr 1 [tool_echo])]) initial_state)).
Proof.
  apply (proj2 (@message_only_for_assistant_with_content demo_platform "agent:stream:t1"
                  (JObj 0 [("messages", JArr 1 [tool_echo])]) initial_state) 1 tool_echo);
    [reflexivity|left; reflexivity].
Defined.

(** ** C2: one Message event per identifier *)

Lemma message_keys_app log1 log2 :
  message_keys (log1 ++ log2) = message_keys log1 ++ message_keys log2.
Proof. unfold message_keys. apply omap_app. Qed.

Lemma message_keys_silent o :
  Forall (λ x, is_message x.2 = false) o → message_keys o = [].
Proof.
  induction 1 as [|[c ev] o Hev _ IH]; [done|].
  unfold message_keys in *. simpl. unfold message_key at 1. simpl.
  by destruct ev.
Qed.

Global Instance deduplicates_sequential : Sequential deduplicates.
Proof.
  split; unfold deduplicates.
  - intros s. split_and!; [done|constructor|]. intros k Hk. by apply elem_of_nil in Hk.
  - intros s o1 s1 o2 s2 (Hsub1 & Hnd1 & Hk1) (Hsub2 & Hnd2 & Hk2).
    rewrite message_keys_app. split_and!.
    + by etrans.
    + apply NoDup_app. split_and!; [done| |done].
      intros k Hin1 Hin2. apply Hk1 in Hin1. apply Hk2 in Hin2. tauto.
    + intros k [Hin|Hin]%elem_of_app.
      * apply Hk1 in Hin as [Hin Hout]. split; [by apply Hsub2|done].
      * apply Hk2 in Hin as [Hin Hout]. split; [done|]. intros Hs. by apply Hout, Hsub1.
Qed.

Global Instance silent_sequential : Sequential silent.
Proof.
  split; unfold silent.
  - intros s. split_and!; [done|lia|constructor].
  - intros s o1 s1 o2 s2 (Hseen1 & Hdraws1 & Ho1) (Hseen2 & Hdraws2 & Ho2).
    split_and!; [congruence|lia|by apply Forall_app].
Qed.

Lemma silent_deduplicates s o s' : silent s o s' → deduplicates s o s'.
Proof.
  intros (Hseen & _ & Ho). unfold deduplicates.
  rewrite (message_keys_silent o Ho), Hseen.
  split_and!; [done|constructor|]. intros k Hk. by apply elem_of_nil in Hk.
Qed.

Section Silent.
Context `{Platform}.

Lemma silent_send channel ev : is_message ev = false → obeys silent (send channel ev).
Proof. intros Hev s. unfold silent. handler_simpl. split_and!; [done|lia|by repeat constructor]. Qed.

Lemma silent_new_uuid : obeys silent new_uuid.
Proof. intros s. unfold silent, new_uuid. handler_simpl. split_and!; [done|lia|constructor]. Qed.

Lemma silent_new_date : obeys silent new_date.
Proof. intros s. unfold silent, new_date. handler_simpl. split_and!; [done|lia|constructor]. Qed.

End Silent.

#[global] Hint Resolve silent_send silent_new_uuid silent_new_date : handlers.

(** The same for a computation that is to be shown [silent]. *)
Ltac silent_auto :=
  repeat first
    [ obeys_step
    | solve [auto with handlers] ].

Section Dedup.
Context `{Platform} (channel : string).

Lemma process_todos_silent state : obeys silent (process_todos channel state).
Proof. unfold process_todos. silent_auto. Qed.

Lemma process_workspace_silent state : obeys silent (process_workspace channel state).
Proof. unfold process_workspace. silent_auto. Qed.

Lemma process_subagents_silent state : obeys silent (process_subagents channel state).
Proof. unfold process_subagents. silent_auto. Qed.

Lemma process_interrupt_silent state : obeys silent (process_interrupt channel state).
Proof. unfold process_interrupt. silent_auto. Qed.

(** What comes after the messages in [process_chunk]. *)
Lemma after_messages_silent state :
  obeys silent (process_todos channel state;;
                process_workspace channel state;;
                process_subagents channel state;;
                process_interrupt channel state).
Proof.
  repeat (apply obeys_bind; [apply _| |intros _ _]);
    auto using process_todos_silent, process_workspace_silent,
      process_subagents_silent, process_interrupt_silent.
Qed.

Lemma or_uuid_silent v : obeys silent (or_uuid v).
Proof. silent_auto. Qed.

Lemma obeys_silent_deduplicates {A} (m : Handler A) :
  obeys silent m → obeys deduplicates m.
Proof. intros Hm s. apply silent_deduplicates, Hm. Qed.

Lemma process_message_deduplicates msg :
  obeys deduplicates (process_message channel msg).
Proof.
  unfold process_message.
  apply obeys_bind; [apply _|apply obeys_lift, _|]. intros id _.
  apply obeys_bind; [apply _|apply obeys_silent_deduplicates, or_uuid_silent|].
  intros msgId _ s.
  unfold seen_has, seen_add, new_date, deduplicates, message_keys, message_key.
  handler_simpl.
  destruct (bool_decide (key_of msgId ∈ seenMessageIds s)) eqn:Hseen; handler_simpl.
  { split_and!; [done|constructor|]. intros k Hk. by apply elem_of_nil in Hk. }
  apply bool_decide_eq_false in Hseen.
  destruct (derive_role msg) as [role|e]; handler_simpl;
    [|split_and!; [done|constructor|]; intros k Hk; by apply elem_of_nil in Hk].
  destruct (extract_content msg) as [content|e]; handler_simpl;
    [|split_and!; [done|constructor|]; intros k Hk; by apply elem_of_nil in Hk].
  destruct (bool_decide (role = RAssistant) && negb (content =? "")%string); handler_simpl;
    [|split_and!; [done|constructor|]; intros k Hk; by apply elem_of_nil in Hk].
  destruct (prop msg "tool_calls") as [tool_calls|e]; handler_simpl.
  - destruct (substring_call msgId) as [[]|e]; handler_simpl.
    all: split_and!; [apply union_subseteq_r|apply NoDup_singleton|].
    all: intros k ->%list_elem_of_singleton; split; [|done].
    all: apply elem_of_union_l; by apply elem_of_singleton.
  - split_and!; [apply union_subseteq_r|constructor|].
    intros k Hk. by apply elem_of_nil in Hk.
Qed.

Lemma process_chunk_deduplicates state :
  obeys deduplicates (process_chunk channel state).
Proof.
  unfold process_chunk. apply obeys_bind; [apply _| |intros _ _].
  - unfold process_messages.
    apply obeys_bind; [apply _|apply obeys_lift, _|]. intros messages _.
    destruct (truthy messages && isArray messages); [|apply obeys_skip, _].
    apply obeys_for_each; [apply _|]. intros msg _. apply process_message_deduplicates.
  - apply obeys_silent_deduplicates, after_messages_silent.
Qed.

End Dedup.

Lemma session_deduplicates `{Platform} inv : obeys deduplicates (session inv).
Proof.
  apply obeys_session; [apply _|intros; apply process_chunk_deduplicates|].
  intros ev Hev. apply obeys_silent_deduplicates, silent_send. by destruct ev.
Qed.

Lemma NoDup_filter_eq_length (k : Key) (l : list Key) :
  NoDup l → length (filter (λ k', k' = k) l) ≤ 1.
Proof.
  induction 1 as [|k' l Hnotin _ IH]; [simpl; lia|].
  rewrite filter_cons. destruct (decide (k' = k)) as [->|]; [|done].
  destruct (filter (λ k', k' = k) l) as [|k' rest] eqn:Hfilter; [simpl; lia|].
  assert (k' ∈ filter (λ k', k' = k) l) as Hin by (rewrite Hfilter; left).
  apply list_elem_of_filter in Hin as [-> Hin]. done.
Qed.

Lemma carries_length (k : Key) (log : list Sent) :
  length (filter (λ x, carries k x) log) = length (filter (λ k', k' = k) (message_keys log)).
Proof.
  induction log as [|x log IH]; [done|].
  rewrite filter_cons. unfold message_keys in *. simpl.
  destruct (decide (carries k x)) as [Hx|Hx]; unfold carries in Hx.
  - rewrite Hx, filter_cons_True by done. simpl. by rewrite IH.
  - destruct (message_key x) as [k'|]; [|done].
    rewrite filter_cons_False by congruence. done.
Qed.

Lemma agent_invoke_keys_distinct `{Platform} inv :
  NoDup (message_keys (agent_invoke inv)).
Proof.
  unfold agent_invoke. destruct (has_window inv); [|constructor].
  apply (session_deduplicates inv initial_state).
Qed.


(** C2: the identifiers carried by the Message events of an invocation are
    pairwise distinct, so whatever identifiers the snapshots repeat, at
    most one Message event carries any given one. *)
Theorem one_message_event_per_identifier `{Platform} (inv : Invocation) :
  NoDup (message_keys (agent_invoke inv))
  ∧ ∀ k, length (filter (λ x, carries k x) (agent_invoke inv)) ≤ 1.
Proof.
  pose proof (agent_invoke_keys_distinct inv) as Hnodup.
  split; [done|]. intros k. rewrite carries_length. by apply NoDup_filter_eq_length.
Qed.

(** ** C10: message items without an identifier *)








Lemma prop_readable v k k' x : prop v k = Normal x → ∃ y, prop v k' = Normal y.
Proof. destruct v; simpl; try done; eauto. Qed.

Section Drawn.
Context `{Platform} (channel : string).
Hypothesis uuid_inj : Inj (=) (=) randomUUID.

Global Instance keeps_drawn_only_sequential : Sequential keeps_drawn_only.
Proof. split; unfold keeps_drawn_only; auto. Qed.







End Drawn.





Lemma demo_uuid_inj : Inj (=) (=) (@randomUUID demo_platform).
Proof. intros i j Hij. simpl in Hij. injection Hij as Hij. by apply (inj pretty). Qed.



(** * Further properties *)

(** ** The table of active runs *)

Lemma register_run_fresh threadId p :
  (register_run threadId p).2 ∉ dom (controllers p).
Proof. apply is_fresh. Qed.

Lemma table_ok_step p step : table_ok p → table_ok (run_step p step).
Proof.
  intros [Hflags Hinj]. destruct step as [t|t|t]; simpl.
  - pose proof (register_run_fresh t p) as Hfresh. simpl in Hfresh.
    set (c := fresh (dom (controllers p))) in *.
    assert (∀ t' c', activeRuns p !! t' = Some c' → c' ≠ c) as Hold.
    { intros t' c' Hc' ->. apply Hfresh, elem_of_dom. rewrite (Hflags _ _ Hc'). eauto. }
    split; simpl.
    + intros t' c'. destruct (decide (t = t')) as [->|Hne].
      * rewrite lookup_insert_eq. intros [= <-]. apply lookup_insert_eq.
      * rewrite lookup_insert_ne by done. intros Hc'.
        rewrite lookup_insert_ne by (intros ->; by eapply Hold). eauto.
    + intros t1 t2 c'. rewrite !lookup_insert.
      repeat case_decide; subst; intros H1 H2; simplify_eq; try done.
      * by destruct (Hold _ _ H2).
      * by destruct (Hold _ _ H1).
      * eauto.
  - split; simpl.
    + intros t' c' [_ Hc']%lookup_delete_Some. eauto.
    + intros t1 t2 c' [_ H1]%lookup_delete_Some [_ H2]%lookup_delete_Some. eauto.
  - unfold agent_cancel. destruct (activeRuns p !! t) as [c|] eqn:Ht; [|done].
    split; simpl.
    + intros t' c' [Hne Hc']%lookup_delete_Some.
      rewrite lookup_insert_ne; [eauto|].
      intros ->. apply Hne. eauto.
    + intros t1 t2 c' [_ H1]%lookup_delete_Some [_ H2]%lookup_delete_Some. eauto.
Qed.

Lemma table_ok_steps steps p : table_ok p → table_ok (run_steps steps p).
Proof.
  revert p. induction steps as [|step steps IH]; intros p Hp; simpl; [done|].
  by apply IH, table_ok_step.
Qed.

Lemma table_ok_no_runs : table_ok no_runs.
Proof. split; intros ?; intros; simplify_map_eq. Qed.

(** X1: whatever the three handlers do to the table, in whatever order,
    every controller the table holds is allocated and not aborted (cancel
    removes the entry whose controller it aborts), and no controller is
    held for two threads. *)
Theorem active_runs_hold_live_controllers (steps : list RunStep) :
  map_Forall (λ _ c, signal_aborted c (run_steps steps no_runs) = false
                     ∧ c ∈ dom (controllers (run_steps steps no_runs)))
    (activeRuns (run_steps steps no_runs))
  ∧ ∀ t t' c,
      activeRuns (run_steps steps no_runs) !! t = Some c →
      activeRuns (run_steps steps no_runs) !! t' = Some c →
      t = t'.
Proof.
  destruct (table_ok_steps steps no_runs table_ok_no_runs) as [Hflags Hinj].
  split; [|done].
  intros t c Hc. apply Hflags in Hc. unfold signal_aborted. rewrite Hc.
  split; [done|]. apply elem_of_dom. eauto.
Qed.

(** X2: registering a run and then cancelling its thread aborts exactly the
    controller that was registered and takes the thread out of the table. *)
Theorem cancel_aborts_registered_controller (threadId : string) (p : Process) :
  signal_aborted (register_run threadId p).2 (register_run threadId p).1 = false
  ∧ activeRuns (register_run threadId p).1 !! threadId = Some (register_run threadId p).2
  ∧ signal_aborted (register_run threadId p).2
      (agent_cancel threadId (register_run threadId p).1) = true
  ∧ activeRuns (agent_cancel threadId (register_run threadId p).1) !! threadId = None.
Proof.
  unfold agent_cancel, signal_aborted, register_run; simpl.
  rewrite !lookup_insert_eq. simpl. rewrite lookup_insert_eq, lookup_delete_eq. done.
Qed.

(** X3: cancelling a thread that has no run changes nothing, cancelling
    twice is cancelling once, and a cancel leaves the entries of the other
    threads and every controller but the thread's own as they were. *)
Theorem cancel_is_idempotent_and_local (threadId : string) (p : Process) :
  (activeRuns p !! threadId = None → agent_cancel threadId p = p)
  ∧ agent_cancel threadId (agent_cancel threadId p) = agent_cancel threadId p
  ∧ (∀ t, t ≠ threadId →
       activeRuns (agent_cancel threadId p) !! t = activeRuns p !! t)
  ∧ (∀ c, activeRuns p !! threadId ≠ Some c →
       controllers (agent_cancel threadId p) !! c = controllers p !! c).
Proof.
  unfold agent_cancel. split_and!.
  - by intros ->.
  - destruct (activeRuns p !! threadId) as [c|] eqn:Ht; simpl; [|by rewrite Ht].
    by rewrite lookup_delete_eq.
  - intros t Ht. destruct (activeRuns p !! threadId); simpl; [|done].
    by rewrite lookup_delete_ne.
  - intros c Hc. destruct (activeRuns p !! threadId) as [c'|]; simpl; [|done].
    rewrite lookup_insert_ne; [done|congruence].
Qed.

Lemma cancel_is_idempotent_and_local_witness :
  agent_cancel "t1" no_runs = no_runs.
Proof.
  apply (proj1 (cancel_is_idempotent_and_local "t1" no_runs)). reflexivity.
Defined.

Lemma orphaned_step c p step : orphaned c p → orphaned c (run_step p step).
Proof.
  intros [Hflag Hout]. destruct step as [t|t|t]; simpl.
  - pose proof (register_run_fresh t p) as Hfresh. simpl in Hfresh.
    assert (c ≠ fresh (dom (controllers p))) as Hne.
    { intros Heq. apply Hfresh. rewrite <- Heq. apply elem_of_dom. eauto. }
    split; simpl.
    + by rewrite lookup_insert_ne.
    + intros t'. destruct (decide (t = t')) as [->|Hne'].
      * rewrite lookup_insert_eq. congruence.
      * rewrite lookup_insert_ne by done. apply Hout.
  - split; simpl; [done|]. intros t' [_ Hc]%lookup_delete_Some. by eapply Hout.
  - unfold agent_cancel. destruct (activeRuns p !! t) as [c'|] eqn:Ht; [|done].
    split; simpl.
    + rewrite lookup_insert_ne; [done|]. intros ->. by eapply Hout.
    + intros t' [_ Hc]%lookup_delete_Some. by eapply Hout.
Qed.

Lemma orphaned_steps c steps p :
  orphaned c p → signal_aborted c (run_steps steps p) = false.
Proof.
  revert p. induction steps as [|step steps IH]; intros p Hp; simpl.
  - unfold signal_aborted. by rewrite (proj1 Hp).
  - by apply IH, orphaned_step.
Qed.

Lemma controllers_grow c steps p :
  c ∈ dom (controllers p) → c ∈ dom (controllers (run_steps steps p)).
Proof.
  revert p. induction steps as [|step steps IH]; intros p Hc; simpl; [done|].
  apply IH. destruct step as [t|t|t]; simpl; [|done|].
  - rewrite dom_insert_L. by apply elem_of_union_r.
  - unfold agent_cancel. destruct (activeRuns p !! t); simpl; [|done].
    rewrite dom_insert_L. by apply elem_of_union_r.
Qed.

Lemma table_ok_registered steps between threadId :
  table_ok (run_steps between (register_run threadId (run_steps steps no_runs)).1).
Proof.
  apply table_ok_steps.
  apply (table_ok_step _ (Registers threadId)).
  apply table_ok_steps, table_ok_no_runs.
Qed.

(** X4: a second invoke for a thread whose run is still registered,
    whatever the handlers did since the first one, puts a new controller
    in the table without aborting the old one, and from then on nothing
    the handlers do aborts the old one: the first session can no longer be
    cancelled. *)
Theorem reregistration_orphans_first_controller
    (before between after : list RunStep) (threadId : string) :
  let first := register_run threadId (run_steps before no_runs) in
  let running := run_steps between first.1 in
  activeRuns running !! threadId = Some first.2 →
  let second := register_run threadId running in
  first.2 ≠ second.2
  ∧ activeRuns second.1 !! threadId = Some second.2
  ∧ signal_aborted first.2 (run_steps after second.1) = false.
Proof.
  intros first running Hstill second.
  destruct (table_ok_registered before between threadId) as [Hflags Hinj].
  fold first running in Hflags, Hinj.
  set (c1 := first.2) in *.
  pose proof (register_run_fresh threadId running) as Hfresh. fold second in Hfresh.
  assert (c1 ≠ second.2) as Hne.
  { intros Heq. apply Hfresh. rewrite <- Heq. apply elem_of_dom.
    rewrite (Hflags _ _ Hstill). eauto. }
  split_and!; [done|apply lookup_insert_eq|].
  apply orphaned_steps. split; simpl.
  - rewrite lookup_insert_ne by done. eauto.
  - intros t. destruct (decide (threadId = t)) as [<-|Hother].
    + rewrite lookup_insert_eq. intros [= Heq]. apply Hne. symmetry. exact Heq.
    + rewrite lookup_insert_ne by done. intros Ht.
      apply Hother. by apply (Hinj _ _ c1).
Qed.

Lemma reregistration_orphans_first_controller_witness :
  signal_aborted (register_run "t1" no_runs).2
    (run_steps [Cancels "t1"; Unregisters "t1"; Registers "t1"]
       (register_run "t1"
          (run_steps [Registers "t2"; Cancels "t3"] (register_run "t1" no_runs).1)).1)
  = false.
Proof.
  destruct (reregistration_orphans_first_controller
              [] [Registers "t2"; Cancels "t3"]
              [Cancels "t1"; Unregisters "t1"; Registers "t1"] "t1")
    as (_ & _ & Hlive); [vm_compute; reflexivity|exact Hlive].
Defined.

(** X5: when two sessions of one thread overlap and the first one ends
    while the second one's run is registered, whatever the handlers did in
    between, its [finally] clause deletes the thread's entry, which is the
    second session's: the thread has no entry left, a cancel for it does
    nothing, and nothing the handlers do afterwards aborts the second
    session's controller. *)
Theorem first_session_end_unregisters_second
    (before between during after : list RunStep) (threadId : string) :
  let first := register_run threadId (run_steps before no_runs) in
  let second := register_run threadId (run_steps between first.1) in
  let running := run_steps during second.1 in
  activeRuns running !! threadId = Some second.2 →
  let ended := unregister_run threadId running in
  first.2 ≠ second.2
  ∧ activeRuns ended !! threadId = None
  ∧ agent_cancel threadId ended = ended
  ∧ signal_aborted second.2 (run_steps after ended) = false.
Proof.
  intros first second running Hstill ended.
  assert (table_ok running) as [Hflags Hinj].
  { apply table_ok_steps. apply (table_ok_step _ (Registers threadId)).
    apply table_ok_registered. }
  split_and!.
  - intros Heq.
    apply (register_run_fresh threadId (run_steps between first.1)).
    fold second. rewrite <- Heq. apply controllers_grow.
    simpl. rewrite dom_insert_L. apply elem_of_union_l. by apply elem_of_singleton.
  - apply lookup_delete_eq.
  - unfold agent_cancel, ended, unregister_run; simpl. by rewrite lookup_delete_eq.
  - apply orphaned_steps. split; simpl.
    + eauto.
    + intros t [Hother Ht]%lookup_delete_Some.
      apply Hother. by apply (Hinj _ _ second.2).
Qed.

Lemma first_session_end_unregisters_second_witness :
  agent_cancel "t1"
    (unregister_run "t1"
       (run_steps [Registers "t2"]
          (register_run "t1"
             (run_steps [Cancels "t1"] (register_run "t1" no_runs).1)).1))
  = unregister_run "t1"
      (run_steps [Registers "t2"]
         (register_run "t1"
            (run_steps [Cancels "t1"] (register_run "t1" no_runs).1)).1).
Proof.
  destruct (first_session_end_unregisters_second
              [] [Cancels "t1"] [Registers "t2"] [] "t1")
    as (_ & _ & Hcancel & _); [vm_compute; reflexivity|exact Hcancel].
Defined.

(** X6: an abort is never undone: a controller that is aborted stays aborted
    whatever the handlers do next. *)
Theorem abort_is_irreversible (steps : list RunStep) (c : nat) (p : Process) :
  signal_aborted c p = true → signal_aborted c (run_steps steps p) = true.
Proof.
  revert p. induction steps as [|step steps IH]; intros p Hp; simpl; [done|].
  apply IH. unfold signal_aborted in *.
  destruct (controllers p !! c) as [[]|] eqn:Hc; try done.
  destruct step as [t|t|t]; simpl.
  - rewrite lookup_insert_ne; [by rewrite Hc|].
    intros Heq. apply (register_run_fresh t p). simpl. rewrite Heq.
    apply elem_of_dom. eauto.
  - by rewrite Hc.
  - unfold agent_cancel. destruct (activeRuns p !! t) as [c'|]; simpl; [|by rewrite Hc].
    destruct (decide (c' = c)) as [->|Hne].
    + by rewrite lookup_insert_eq.
    + rewrite lookup_insert_ne by done. by rewrite Hc.
Qed.

Lemma abort_is_irreversible_witness :
  signal_aborted 0
    (run_steps [Registers "t1"; Registers "t2"; Unregisters "t1"]
       (agent_cancel "t1" (register_run "t1" no_runs).1)) = true.
Proof.
  apply (abort_is_irreversible [Registers "t1"; Registers "t2"; Unregisters "t1"] 0
           (agent_cancel "t1" (register_run "t1" no_runs).1)).
  vm_compute. reflexivity.
Defined.

(** ** How a session ends *)

Lemma bind_ext {A B} (m : Handler A) (f g : A → Handler B) s :
  (∀ a s', f a s' = g a s') → (m ≫= f) s = (m ≫= g) s.
Proof.
  intros Hfg. unfold mbind, handler_bind.
  destruct (m s) as [[s1 o1] [a|e]]; [|done]. by rewrite Hfg.
Qed.

Lemma stream_loop_truncate `{Platform} channel k i stream s :
  stream_loop channel (Some (i + k)) i stream s
  = stream_loop channel None i (truncate k stream) s.
Proof.
  revert k i s. induction stream as [|e|chunk rest IH]; intros k i s; simpl; [done..|].
  destruct k as [|k]; simpl.
  - rewrite bool_decide_eq_true_2 by lia. done.
  - rewrite bool_decide_eq_false_2 by lia.
    apply bind_ext. intros _ s'.
    replace (i + S k) with (S i + k) by lia. apply IH.
Qed.

(** X7: a session cancelled before its [k]-th snapshot sends exactly what
    an uncancelled session sends on the stream cut after [k] snapshots:
    the snapshots up to the cut are processed in full, nothing of the
    later ones is, and the end is a Done as if the stream had run out. *)
Theorem cancelled_session_is_session_on_truncated_stream `{Platform}
    (threadId message : string) (stream : AgentStream) (k : nat) :
  agent_invoke (streaming threadId message stream (Some k))
  = agent_invoke (streaming threadId message (truncate k stream) None).
Proof.
  unfold agent_invoke, streaming, session, try_catch; simpl.
  unfold mbind, handler_bind at 1 3; simpl.
  assert (∀ s, stream_loop (channel_of threadId) (Some k) 0 stream s
               = stream_loop (channel_of threadId) None 0 (truncate k stream) s) as Hloop
    by (intros s; apply (stream_loop_truncate _ k 0)).
  unfold mbind, handler_bind. by rewrite Hloop.
Qed.








(** ** The events of one snapshot *)

Lemma sent_bind {A B} (m : Handler A) (f : A → Handler B) s :
  sent ((m ≫= f) s)
  = sent (m s) ++ match outcome (m s) with
                  | Normal a => sent (f a (final (m s)))
                  | Throw _ => []
                  end.
Proof.
  unfold mbind, handler_bind, sent, outcome, final.
  destruct (m s) as [[s1 o1] [a|e]]; simpl; [|by rewrite app_nil_r].
  by destruct (f a s1) as [[s2 o2] r].
Qed.

Lemma sends_nothing {A} (m : Handler A) s :
  obeys (sends_only (λ _, False)) m → sent (m s) = [].
Proof.
  intros Hm. specialize (Hm s). unfold sends_only in Hm.
  destruct (sent (m s)) as [|x o]; [done|]. by apply Forall_cons in Hm as [[] _].
Qed.

Lemma at_most_one_nil kind : at_most_one kind [].
Proof. by left. Qed.

Lemma at_most_one_send kind channel ev s :
  kind ev = true → at_most_one kind (sent (send channel ev s)).
Proof. intros Hev. right. by exists (channel, ev). Qed.

Section Order.
Context `{Platform} (channel : string).

Lemma process_messages_only_messages state s :
  Forall (λ x, is_message x.2 = true) (sent (process_messages channel state s)).
Proof.
  revert s.
  change (obeys (sends_only (λ x, is_message x.2 = true)) (process_messages channel state)).
  unfold process_messages, process_message. sends_only_auto; done.
Qed.

Lemma todos_quiet items s : sent (map_each todo_of items s) = [].
Proof. apply sends_nothing. sends_only_auto. Qed.

Lemma legacy_files_quiet items s : sent (map_each file_of_legacy items s) = [].
Proof. apply sends_nothing. sends_only_auto. Qed.

Lemma subagents_quiet items s : sent (map_each subagent_of items s) = [].
Proof. apply sends_nothing. sends_only_auto. Qed.

Lemma or_uuid_quiet v s : sent (or_uuid v s) = [].
Proof. apply sends_nothing. sends_only_auto. Qed.

Lemma lift_quiet {A} (c : Completion A) s : sent (lift c s) = [].
Proof. by destruct c. Qed.

Lemma process_todos_at_most_one state s :
  at_most_one is_todos (sent (process_todos channel state s)).
Proof.
  unfold process_todos. rewrite sent_bind, lift_quiet. simpl.
  destruct (prop state "todos") as [todos|e]; simpl; [|by left].
  destruct (truthy todos && isArray todos); [|by left].
  rewrite sent_bind, todos_quiet. simpl.
  destruct (outcome _); [by apply at_most_one_send|by left].
Qed.

Lemma process_workspace_at_most_one state s :
  at_most_one is_workspace (sent (process_workspace channel state s)).
Proof.
  unfold process_workspace. rewrite sent_bind, lift_quiet. simpl.
  destruct (prop state "files") as [filesObj|e]; simpl; [|by left].
  rewrite sent_bind, lift_quiet. simpl.
  destruct (prop state "workspacePath") as [workspacePath|e]; simpl; [|by left].
  repeat case_match; try by left.
  - by apply at_most_one_send.
  - rewrite sent_bind, legacy_files_quiet. simpl.
    destruct (outcome _); [by apply at_most_one_send|by left].
Qed.

Lemma process_subagents_at_most_one state s :
  at_most_one is_subagents (sent (process_subagents channel state s)).
Proof.
  unfold process_subagents. rewrite sent_bind, lift_quiet. simpl.
  destruct (prop state "subagents") as [subagentsRaw|e]; simpl; [|by left].
  case_match; [|by left].
  rewrite sent_bind, subagents_quiet. simpl.
  destruct (outcome _); [by apply at_most_one_send|by left].
Qed.

Lemma process_interrupt_at_most_one state s :
  at_most_one is_interrupt (sent (process_interrupt channel state s)).
Proof.
  unfold process_interrupt. rewrite sent_bind, lift_quiet. simpl.
  destruct (prop state "__interrupt__") as [interrupt|e]; simpl; [|by left].
  case_match; [|by left].
  rewrite sent_bind, lift_quiet. simpl.
  destruct (prop interrupt "id") as [id|e]; simpl; [|by left].
  rewrite sent_bind, or_uuid_quiet. simpl.
  destruct (outcome (or_uuid id _)); [|by left].
  rewrite sent_bind, lift_quiet. simpl.
  destruct (prop interrupt "tool_call"); simpl; [by apply at_most_one_send|by left].
Qed.

End Order.

(** X10: the events of one snapshot come in the fixed order of the
    extractors: the Message events first, then at most one Todos event,
    at most one Workspace event, at most one Subagents event and at most
    one Interrupt event, whether or not the snapshot faults on the way. *)
Theorem snapshot_events_in_extractor_order `{Platform}
    (channel : string) (state : JsVal) (s : SessionState) :
  ∃ messages todos workspace subagents interrupt,
    sent (process_chunk channel state s)
    = messages ++ todos ++ workspace ++ subagents ++ interrupt
    ∧ Forall (λ x, is_message x.2 = true) messages
    ∧ at_most_one is_todos todos
    ∧ at_most_one is_workspace workspace
    ∧ at_most_one is_subagents subagents
    ∧ at_most_one is_interrupt interrupt.
Proof.
  unfold process_chunk. rewrite sent_bind.
  exists (sent (process_messages channel state s)).
  pose proof (process_messages_only_messages channel state s) as Hmessages.
  destruct (outcome (process_messages channel state s)) as [[]|e];
    [|exists [], [], [], []; split_and!; auto using at_most_one_nil].
  set (s1 := final _). rewrite sent_bind.
  exists (sent (process_todos channel state s1)).
  pose proof (process_todos_at_most_one channel state s1) as Htodos.
  destruct (outcome (process_todos channel state s1)) as [[]|e];
    [|exists [], [], []; split_and!; auto using at_most_one_nil].
  set (s2 := final _). rewrite sent_bind.
  exists (sent (process_workspace channel state s2)).
  pose proof (process_workspace_at_most_one channel state s2) as Hworkspace.
  destruct (outcome (process_workspace channel state s2)) as [[]|e];
    [|exists [], []; split_and!; auto using at_most_one_nil].
  set (s3 := final _). rewrite sent_bind.
  exists (sent (process_subagents channel state s3)).
  pose proof (process_subagents_at_most_one channel state s3) as Hsubagents.
  destruct (outcome (process_subagents channel state s3)) as [[]|e];
    [|exists []; split_and!; auto using at_most_one_nil].
  set (s4 := final _).
  exists (sent (process_interrupt channel state s4)).
  split_and!; auto using process_interrupt_at_most_one.
Qed.

(** ** The tracker of sent identifiers *)

Global Instance tracks_sent_sequential : Sequential tracks_sent.
Proof.
  split; unfold tracks_sent.
  - intros s. simpl. by rewrite union_empty_l_L.
  - intros s o1 s1 o2 s2 H1 H2.
    rewrite message_keys_app, list_to_set_app_L, H2, H1.
    by rewrite (assoc_L (∪)),
      (comm_L (∪) (list_to_set (message_keys o2)) (list_to_set (message_keys o1))).
Qed.

Lemma silent_tracks_sent {A} (m : Handler A) :
  obeys silent m → obeys tracks_sent m.
Proof.
  intros Hm s. destruct (Hm s) as (Hseen & _ & Ho). unfold tracks_sent.
  rewrite (message_keys_silent _ Ho), Hseen. simpl. by rewrite union_empty_l_L.
Qed.

Section Tracker.
Context `{Platform} (channel : string).

Lemma process_message_tracks_sent msg :
  obeys tracks_sent (process_message channel msg).
Proof.
  intros s. unfold tracks_sent, message_keys.
  unfold process_message, or_uuid, new_uuid, seen_has, seen_add, new_date.
  handler_simpl.
  destruct (prop msg "id") as [id|e] eqn:Hid; handler_simpl;
    [|by rewrite union_empty_l_L].
  destruct (prop_readable msg "id" "tool_calls" id Hid) as [tool_calls Htool_calls].
  rewrite Htool_calls.
  destruct (truthy id); handler_simpl.
  all: match goal with |- context [bool_decide (?k ∈ ?S)] =>
         destruct (bool_decide (k ∈ S)) end; handler_simpl;
       [by rewrite union_empty_l_L|].
  all: destruct (derive_role msg) as [role|e]; handler_simpl;
       [|by rewrite union_empty_l_L].
  all: destruct (extract_content msg) as [content|e]; handler_simpl;
       [|by rewrite union_empty_l_L].
  all: destruct (bool_decide (role = RAssistant) && negb (content =? "")%string);
       handler_simpl; [|by rewrite union_empty_l_L].
  all: try match goal with |- context [substring_call ?v] =>
         destruct (substring_call v) as [[]|e] end; handler_simpl.
  all: unfold message_key; simpl; by rewrite union_empty_r_L.
Qed.

Lemma process_chunk_tracks_sent state :
  obeys tracks_sent (process_chunk channel state).
Proof.
  unfold process_chunk. apply obeys_bind; [apply _| |intros _ _].
  - unfold process_messages.
    apply obeys_bind; [apply _|apply obeys_lift, _|]. intros messages _.
    destruct (truthy messages && isArray messages); [|apply obeys_skip, _].
    apply obeys_for_each; [apply _|]. intros msg _. apply process_message_tracks_sent.
  - apply silent_tracks_sent, after_messages_silent.
Qed.

End Tracker.

(** X11: at the end of a session, however it ends, the tracker
    [seenMessageIds] holds exactly the identifiers of the Message events
    the session sent: an identifier is recorded when, and only when, its
    message is sent. *)
Theorem tracker_holds_exactly_sent_identifiers `{Platform} (inv : Invocation) :
  seenMessageIds (final (session inv initial_state))
  = list_to_set (message_keys (sent (session inv initial_state))).
Proof.
  assert (obeys tracks_sent (session inv)) as Hsession.
  { apply obeys_session; [apply _|intros; apply process_chunk_tracks_sent|].
    intros ev Hev. apply silent_tracks_sent, silent_send. by destruct ev. }
  specialize (Hsession initial_state). unfold tracks_sent in Hsession.
  rewrite Hsession. simpl. by rewrite union_empty_r_L.
Qed.

Section Reprocessing.
Context `{Platform} (channel : string).

Lemma process_message_done msg id s s1 o :
  prop msg "id" = Normal id →
  truthy id = true →
  process_message channel msg s = (s1, o, Normal ()) →
  key_of id ∈ seenMessageIds s1 ∨ unqualified msg.
Proof.
  intros Hid Htruthy.
  unfold process_message, or_uuid, seen_has, seen_add, new_date.
  handler_simpl. rewrite Hid. handler_simpl. rewrite Htruthy. handler_simpl.
  destruct (bool_decide (key_of id ∈ seenMessageIds s)) eqn:Hseen; handler_simpl.
  { intros [= <- _]. left. by apply bool_decide_eq_true in Hseen. }
  destruct (derive_role msg) as [role|e] eqn:Hrole; handler_simpl; [|done].
  destruct (extract_content msg) as [content|e] eqn:Hcontent; handler_simpl; [|done].
  destruct (bool_decide (role = RAssistant) && negb (content =? "")%string) eqn:Hif;
    handler_simpl; [|intros _; right; by exists role, content].
  destruct (prop msg "tool_calls") as [tool_calls|e]; handler_simpl; [|done].
  destruct (substring_call id) as [[]|e]; handler_simpl; [|done].
  intros [= <- _]. left. simpl. apply elem_of_union_l. by apply elem_of_singleton.
Qed.

Lemma process_message_again msg id s :
  prop msg "id" = Normal id →
  truthy id = true →
  key_of id ∈ seenMessageIds s ∨ unqualified msg →
  process_message channel msg s = (s, [], Normal ()).
Proof.
  intros Hid Htruthy Hdone.
  unfold process_message, or_uuid, seen_has, seen_add, new_date.
  handler_simpl. rewrite Hid. handler_simpl. rewrite Htruthy. handler_simpl.
  destruct (bool_decide (key_of id ∈ seenMessageIds s)) eqn:Hseen; handler_simpl; [done|].
  destruct Hdone as [Hin|(role & content & -> & -> & Hif)].
  - by apply bool_decide_eq_false in Hseen.
  - handler_simpl. by rewrite Hif.
Qed.

Lemma for_each_again items s s1 o s2 :
  Forall has_id items →
  for_each (process_message channel) items s = (s1, o, Normal ()) →
  seenMessageIds s1 ⊆ seenMessageIds s2 →
  for_each (process_message channel) items s2 = (s2, [], Normal ()).
Proof.
  intros Hitems. revert s o.
  induction Hitems as [|msg items (id & Hid & Htruthy) _ IH]; intros s o; simpl; [done|].
  intros Hrun Hsub.
  apply bind_normal in Hrun as (sa & oa & [] & ob & Hmsg & Hrest & ->).
  assert (seenMessageIds sa ⊆ seenMessageIds s1) as Hgrow.
  { assert (obeys deduplicates (for_each (process_message channel) items)) as Hd
      by (apply obeys_for_each; [apply _|]; intros; apply process_message_deduplicates).
    specialize (Hd sa). rewrite Hrest in Hd. apply Hd. }
  unfold mbind, handler_bind.
  rewrite (process_message_again msg id s2 Hid Htruthy).
  - by rewrite (IH sa ob Hrest Hsub).
  - destruct (process_message_done msg id s sa oa Hid Htruthy Hmsg) as [Hin|Hun];
      [left|by right].
    by apply Hsub, Hgrow.
Qed.

End Reprocessing.

(** X12: a snapshot handed over again sends no new Message event: once the
    messages of a snapshot have been gone through, going through the same
    messages at any later point of the session (the tracker only grows)
    sends nothing and leaves the state as it is, provided every message
    item carries an identifier of its own. *)
Theorem repeated_snapshot_sends_no_message `{Platform}
    (channel : string) (state : JsVal) (r : nat) (items : list JsVal)
    (s s1 s2 : SessionState) (o : list Sent) :
  prop state "messages" = Normal (JArr r items) →
  Forall has_id items →
  process_messages channel state s = (s1, o, Normal ()) →
  seenMessageIds s1 ⊆ seenMessageIds s2 →
  process_messages channel state s2 = (s2, [], Normal ()).
Proof.
  intros Hmessages Hitems. unfold process_messages. rewrite Hmessages.
  unfold mbind, handler_bind at 1 2; simpl.
  destruct (for_each _ items s) as [[sa oa] ra] eqn:Hrun.
  intros [= -> -> ->] Hsub.
  by rewrite (for_each_again channel items s s1 o s2 Hitems Hrun Hsub).
Qed.

Lemma repeated_snapshot_sends_no_message_witness :
  ∃ s1,
    @process_messages demo_platform "agent:stream:t1"
      (JObj 0 [("messages", JArr 1 [named_message; tool_echo])]) s1
    = (s1, [], Normal ()).
Proof.
  eexists.
  eapply (@repeated_snapshot_sends_no_message demo_platform "agent:stream:t1"
            (JObj 0 [("messages", JArr 1 [named_message; tool_echo])]) 1
            [named_message; tool_echo] initial_state).
  - reflexivity.
  - repeat constructor; eexists; split; reflexivity.
  - vm_compute. reflexivity.
  - reflexivity.
Defined.

(** X13: an identifier that is truthy but has no [substring] method (a
    number, [true], an array) passes the tracker and the Message event is
    sent, but the log line after the send throws: the item's Message event
    is followed by the session's Error event. *)
Theorem message_with_odd_identifier_is_sent_then_faults `{Platform}
    (channel : string) (msg id : JsVal) (content : string) (s : SessionState) :
  prop msg "id" = Normal id →
  truthy id = true →
  no_substring id →
  key_of id ∉ seenMessageIds s →
  derive_role msg = Normal RAssistant →
  extract_content msg = Normal content →
  content ≠ "" →
  ∃ s' tool_calls,
    process_message channel msg s
    = (s', [(channel, EvMessage {| msg_id := id;
                                  msg_role := RAssistant;
                                  msg_content := content;
                                  msg_tool_calls := tool_calls;
                                  msg_created_at := DateAt (clock (clock_reads s)) |})],
       Throw (ThrownError "msgId.substring is not a function")).
Proof.
  intros Hid Htruthy Hodd Hnew Hrole Hcontent Hnonempty.
  destruct (prop_readable msg "id" "tool_calls" id Hid) as [tool_calls Htool_calls].
  unfold process_message, or_uuid, seen_has, seen_add, new_date.
  handler_simpl. rewrite Hid. handler_simpl. rewrite Htruthy. handler_simpl.
  rewrite bool_decide_eq_false_2 by done. handler_simpl.
  rewrite Hrole, Hcontent. handler_simpl.
  apply String.eqb_neq in Hnonempty. rewrite Hnonempty. handler_simpl.
  rewrite Htool_calls. handler_simpl.
  destruct id; try done; handler_simpl; eauto.
Qed.

Lemma message_with_odd_identifier_is_sent_then_faults_witness :
  ∃ s' tool_calls,
    @process_message demo_platform "agent:stream:t1"
      (JObj 2 [("id", JNum 7); ("content", JStr "hello")]) initial_state
    = (s', [("agent:stream:t1",
             EvMessage {| msg_id := JNum 7;
                          msg_role := RAssistant;
                          msg_content := "hello";
                          msg_tool_calls := tool_calls;
                          msg_created_at := DateAt 0 |})],
       Throw (ThrownError "msgId.substring is not a function")).
Proof.
  apply (@message_with_odd_identifier_is_sent_then_faults demo_platform
           "agent:stream:t1" (JObj 2 [("id", JNum 7); ("content", JStr "hello")])
           (JNum 7) "hello" initial_state);
    [reflexivity|reflexivity|exact I|apply not_elem_of_empty
    |reflexivity|reflexivity|done].
Defined.

(** ** Lists that cannot be read, and generated identifiers *)

Section Lists.
Context `{Platform}.

Lemma todo_of_nullish t s : nullish t = true → ∃ e, todo_of t s = (s, [], Throw e).
Proof. destruct t; try done; intros _; unfold todo_of; handler_simpl; eauto. Qed.

Lemma map_each_todo_of_unreadable items s :
  Exists (λ t, nullish t = true) items →
  ∃ e, outcome (map_each todo_of items s) = Throw e.
Proof.
  intros Hitems. revert s.
  induction Hitems as [t items Ht|t items _ IH]; intros s; simpl.
  - destruct (todo_of_nullish t s Ht) as [e He].
    exists e. unfold mbind, handler_bind at 1. by rewrite He.
  - destruct (nullish t) eqn:Ht.
    + destruct (todo_of_nullish t s Ht) as [e He].
      exists e. unfold mbind, handler_bind at 1. by rewrite He.
    + destruct (todo_of_readable t s Ht) as (s1 & todo & Htodo).
      destruct (IH s1) as [e He]. exists e.
      unfold mbind, handler_bind at 1. rewrite Htodo.
      unfold mbind, handler_bind at 1. unfold outcome in He.
      by destruct (map_each todo_of items s1) as [[s2 o2] [out|e']]; simplify_eq/=.
Qed.

Lemma todo_of_idless t s :
  idless_todo t →
  ∃ todo,
    todo_of t s = ({| seenMessageIds := seenMessageIds s;
                      uuid_draws := S (uuid_draws s);
                      clock_reads := clock_reads s |}, [], Normal todo)
    ∧ todo_id todo = JStr (randomUUID (uuid_draws s)).
Proof.
  intros [Ht Hid]. unfold todo_of, optional_prop in *.
  destruct (prop_not_nullish t "id" Ht) as [id Hid'].
  destruct (prop_not_nullish t "content" Ht) as [content ->].
  destruct (prop_not_nullish t "status" Ht) as [status ->].
  rewrite Hid' in *. unfold or_uuid, new_uuid.
  eexists. unfold mbind, handler_bind, lift; simpl. rewrite Hid. simpl.
  split; reflexivity.
Qed.

End Lists.

(** X14: a Todos event is sent whole or not at all: when an item of the
    todos list is [null] or [undefined], no Todos event is sent for the
    snapshot, not even for the items before it, and the extractor throws. *)
Theorem todos_with_unreadable_item_send_nothing `{Platform}
    (channel : string) (state : JsVal) (r : nat) (items : list JsVal)
    (s : SessionState) :
  prop state "todos" = Normal (JArr r items) →
  Exists (λ t, nullish t = true) items →
  sent (process_todos channel state s) = []
  ∧ ∃ e, outcome (process_todos channel state s) = Throw e.
Proof.
  intros Htodos Hitems.
  destruct (map_each_todo_of_unreadable items s Hitems) as [e He].
  pose proof (todos_quiet items s) as Hquiet.
  unfold process_todos. rewrite Htodos. unfold sent, outcome in *.
  unfold mbind, handler_bind; simpl.
  destruct (map_each todo_of items s) as [[s1 o1] [out|e']]; simplify_eq/=.
  eauto.
Qed.

Lemma todos_with_unreadable_item_send_nothing_witness :
  sent (@process_todos demo_platform "agent:stream:t1"
          (JObj 0 [("todos", JArr 1 [JObj 2 [("content", JStr "write tests")]; JNull])])
          initial_state) = []
  ∧ ∃ e, outcome (@process_todos demo_platform "agent:stream:t1"
                    (JObj 0 [("todos", JArr 1 [JObj 2 [("content", JStr "write tests")]; JNull])])
                    initial_state) = Throw e.
Proof.
  apply (@todos_with_unreadable_item_send_nothing demo_platform "agent:stream:t1"
           (JObj 0 [("todos", JArr 1 [JObj 2 [("content", JStr "write tests")]; JNull])])
           1 [JObj 2 [("content", JStr "write tests")]; JNull] initial_state).
  - reflexivity.
  - right. by left.
Defined.

Lemma map_each_todo_of_idless `{Platform} (items : list JsVal) (s : SessionState) :
  Forall idless_todo items →
  ∃ s' out,
    map_each todo_of items s = (s', [], Normal out)
    ∧ todo_id <$> out
      = (λ i, JStr (randomUUID i)) <$> seq (uuid_draws s) (length items)
    ∧ uuid_draws s' = uuid_draws s + length items.
Proof.
  intros Hitems. revert s.
  induction Hitems as [|t items Ht _ IH]; intros s; simpl.
  - exists s, []. split_and!; [done..|lia].
  - destruct (todo_of_idless t s Ht) as (todo & Htodo & Hid).
    destruct (IH {| seenMessageIds := seenMessageIds s;
                    uuid_draws := S (uuid_draws s);
                    clock_reads := clock_reads s |}) as (s' & out & Hrest & Hids & Hdraws).
    exists s', (todo :: out). simpl in *. split_and!.
    + unfold mbind, handler_bind at 1. rewrite Htodo.
      unfold mbind, handler_bind at 1. by rewrite Hrest.
    + rewrite Hid. f_equal. exact Hids.
    + lia.
Qed.

(** X15: todo items that have no id of their own are given the generator's
    next identifiers, one each and in order, and the draws are used up.
    When the generator's identifiers are distinct, the ids within the
    event are therefore pairwise distinct, and the same raw todos, mapped
    again at any later state of the generator (in the next snapshot), get
    ids none of which they had before. *)
Theorem idless_todos_get_consecutive_identifiers `{Platform}
    (items : list JsVal) (s later : SessionState) :
  Inj (=) (=) randomUUID →
  Forall idless_todo items →
  uuid_draws s + length items ≤ uuid_draws later →
  ∃ s' out later' out',
    map_each todo_of items s = (s', [], Normal out)
    ∧ uuid_draws s' = uuid_draws s + length items
    ∧ todo_id <$> out
      = (λ i, JStr (randomUUID i)) <$> seq (uuid_draws s) (length items)
    ∧ NoDup (todo_id <$> out)
    ∧ map_each todo_of items later = (later', [], Normal out')
    ∧ ∀ id, id ∈ todo_id <$> out → id ∉ todo_id <$> out'.
Proof.
  intros Hinj Hitems Hlater.
  destruct (map_each_todo_of_idless items s Hitems) as (s' & out & Hrun & Hids & Hdraws).
  destruct (map_each_todo_of_idless items later Hitems)
    as (later' & out' & Hrun' & Hids' & _).
  exists s', out, later', out'. split_and!; [done..| |done|].
  - rewrite Hids. apply NoDup_fmap_2; [|apply NoDup_seq].
    intros i j [= Hij]. by apply Hinj.
  - intros id. rewrite Hids, Hids'.
    intros (i & -> & Hi%elem_of_seq)%list_elem_of_fmap
           (j & [= Hij] & Hj%elem_of_seq)%list_elem_of_fmap.
    apply Hinj in Hij. lia.
Qed.

Lemma idless_todos_get_consecutive_identifiers_witness :
  ∃ s' out later' out',
    map_each (@todo_of demo_platform)
      [JObj 0 [("content", JStr "write tests")]; JObj 1 [("content", JStr "ship")]]
      initial_state = (s', [], Normal out)
    ∧ uuid_draws s' = 0 + 2
    ∧ todo_id <$> out = (λ i, JStr (@randomUUID demo_platform i)) <$> seq 0 2
    ∧ NoDup (todo_id <$> out)
    ∧ map_each (@todo_of demo_platform)
        [JObj 0 [("content", JStr "write tests")]; JObj 1 [("content", JStr "ship")]]
        {| seenMessageIds := ∅; uuid_draws := 2; clock_reads := 0 |}
      = (later', [], Normal out')
    ∧ ∀ id, id ∈ todo_id <$> out → id ∉ todo_id <$> out'.
Proof.
  apply (@idless_todos_get_consecutive_identifiers demo_platform
           [JObj 0 [("content", JStr "write tests")]; JObj 1 [("content", JStr "ship")]]
           initial_state {| seenMessageIds := ∅; uuid_draws := 2; clock_reads := 0 |}).
  - apply demo_uuid_inj.
  - repeat constructor.
  - simpl. lia.
Defined.

(** ** The text of a message *)

Section Content.
Context `{Platform}.

Lemma filter_text_readable blocks :
  Forall (λ b, nullish b = false) blocks →
  filter_text blocks = Normal (filter (λ b, is_text_block b = true) blocks).
Proof.
  induction 1 as [|b blocks Hb _ IH]; simpl; [done|].
  destruct (prop_not_nullish b "type" Hb) as [ty Hty].
  rewrite Hty, IH. simpl. rewrite filter_cons.
  unfold is_text_block, optional_prop. rewrite Hty.
  by destruct (is_str ty "text"); case_decide.
Qed.

Lemma join_map_text_plain blocks :
  Forall plain_block blocks →
  ∃ texts, map_text blocks = Normal texts
           ∧ join texts = Normal (concat_strings (text_of <$> blocks)).
Proof.
  induction 1 as [|b blocks [Hb Htext] _ (texts & Hmap & Hjoin)]; simpl; [by exists []|].
  destruct (prop_not_nullish b "text" Hb) as [text Hprop].
  unfold text_of, optional_prop in *. rewrite Hprop in *. rewrite Hmap. simpl.
  eexists. split; [done|]. simpl. rewrite Hjoin. unfold js_or.
  destruct text as [| |[]|n|str| | |]; simpl in *; try done.
  - by destruct (n =? 0)%Z.
  - by destruct str.
Qed.

End Content.

(** X16: the content of a message whose [content] is a list of blocks is
    the texts of the blocks whose type is text, in order and joined with
    nothing between them; the other blocks contribute nothing.  (For
    blocks that can be read and whose text, if any, is a string.) *)
Theorem block_content_is_concatenated_text `{Platform}
    (msg : JsVal) (r : nat) (blocks : list JsVal) :
  prop msg "content" = Normal (JArr r blocks) →
  Forall plain_block blocks →
  extract_content msg
  = Normal (concat_strings (text_of <$> filter (λ b, is_text_block b = true) blocks)).
Proof.
  intros Hcontent Hblocks. unfold extract_content. rewrite Hcontent. simpl.
  rewrite filter_text_readable by (eapply Forall_impl; [done|by intros b [Hb _]]).
  simpl.
  destruct (join_map_text_plain (filter (λ b, is_text_block b = true) blocks))
    as (texts & -> & Hjoin); [|done].
  apply Forall_forall. intros b [_ Hb]%list_elem_of_filter.
  by eapply Forall_forall in Hblocks.
Qed.

Lemma block_content_is_concatenated_text_witness :
  @extract_content demo_platform
    (JObj 0 [("content",
       JArr 1 [JObj 2 [("type", JStr "text"); ("text", JStr "a")];
               JObj 3 [("type", JStr "image")];
               JObj 4 [("type", JStr "text"); ("text", JStr "b")]])])
  = Normal "ab".
Proof.
  apply (@block_content_is_concatenated_text demo_platform
           (JObj 0 [("content",
              JArr 1 [JObj 2 [("type", JStr "text"); ("text", JStr "a")];
                      JObj 3 [("type", JStr "image")];
                      JObj 4 [("type", JStr "text"); ("text", JStr "b")]])]) 1
           [JObj 2 [("type", JStr "text"); ("text", JStr "a")];
            JObj 3 [("type", JStr "image")];
            JObj 4 [("type", JStr "text"); ("text", JStr "b")]]).
  - reflexivity.
  - repeat constructor.
Defined.

(** ** The Subagents event *)

(** X17: every Subagents event an invocation sends lists at least one
    subagent: an absent, non-list or empty subagents field sends none. *)
Theorem subagents_event_only_for_nonempty_list `{Platform} (inv : Invocation) :
  Forall subagents_nonempty (agent_invoke inv).
Proof.
  unfold agent_invoke. destruct (has_window inv); [|constructor].
  apply (obeys_session (sends_only subagents_nonempty) inv).
  - intros state.
    unfold process_chunk, process_messages, process_todos, process_workspace,
      process_subagents, process_interrupt, process_message.
    sends_only_auto.
    all: try exact I.
    unfold subagents_nonempty; simpl. intros ->.
    match goal with Hret : returns (map_each _ _) [] |- _ =>
      apply map_each_returns_length in Hret; simpl in Hret end.
    match goal with Hif : _ && _ = true |- _ =>
      apply andb_true_iff in Hif as [_ Hlen] end.
    apply bool_decide_eq_true in Hlen. lia.
  - intros ev Hev. apply sends_only_send. by destruct ev.
Qed.

(** ** The order of the Message events *)

Section Order.
Context `{Platform} (channel : string).

Lemma process_message_own_key msg s :
  has_id msg →
  message_keys (sent (process_message channel msg s)) `sublist_of` [item_key msg].
Proof.
  intros (id & Hid & Htruthy).
  unfold item_key, optional_prop. rewrite Hid.
  unfold process_message, or_uuid, seen_has, seen_add, new_date.
  handler_simpl. rewrite Hid. handler_simpl. rewrite Htruthy. handler_simpl.
  destruct (bool_decide (key_of id ∈ seenMessageIds s)); handler_simpl;
    [apply sublist_nil_l|].
  destruct (derive_role msg) as [role|]; handler_simpl; [|apply sublist_nil_l].
  destruct (extract_content msg) as [content|]; handler_simpl; [|apply sublist_nil_l].
  destruct (bool_decide (role = RAssistant) && negb (content =? "")%string);
    handler_simpl; [|apply sublist_nil_l].
  destruct (prop msg "tool_calls"); handler_simpl; [|apply sublist_nil_l].
  by destruct (substring_call id).
Qed.

Lemma for_each_item_order items s :
  Forall has_id items →
  message_keys (sent (for_each (process_message channel) items s))
    `sublist_of` (item_key <$> items).
Proof.
  intros Hitems. revert s.
  induction Hitems as [|msg items Hmsg _ IH]; intros s; simpl; [done|].
  rewrite sent_bind. unfold message_keys. rewrite omap_app.
  apply (sublist_app _ [item_key msg]); [by apply process_message_own_key|].
  destruct (outcome (process_message channel msg s)); [apply IH|apply sublist_nil_l].
Qed.

End Order.

(** X18: the Message events of a snapshot are sent in the order of its
    message items: the identifiers they carry are a subsequence of the
    items' identifiers (for items that carry an identifier of their own). *)
Theorem message_events_follow_item_order `{Platform}
    (channel : string) (state : JsVal) (r : nat) (items : list JsVal)
    (s : SessionState) :
  prop state "messages" = Normal (JArr r items) →
  Forall has_id items →
  message_keys (sent (process_messages channel state s))
    `sublist_of` (item_key <$> items).
Proof.
  intros Hmessages Hitems. unfold process_messages.
  rewrite sent_bind. rewrite Hmessages. handler_simpl.
  by apply for_each_item_order.
Qed.

Lemma message_events_follow_item_order_witness :
  message_keys
    (sent (@process_messages demo_platform "agent:stream:t1"
             (JObj 0 [("messages",
                JArr 1 [JObj 2 [("id", JStr "m1"); ("content", JStr "one")];
                        JObj 3 [("id", JStr "m2"); ("content", JStr "")];
                        JObj 4 [("id", JStr "m3"); ("content", JStr "three")]])])
             initial_state))
    `sublist_of`
    (item_key <$> [JObj 2 [("id", JStr "m1"); ("content", JStr "one")];
                   JObj 3 [("id", JStr "m2"); ("content", JStr "")];
                   JObj 4 [("id", JStr "m3"); ("content", JStr "three")]]).
Proof.
  apply (@message_events_follow_item_order demo_platform "agent:stream:t1" _ 1).
  - reflexivity.
  - repeat constructor; eexists; (split; [reflexivity|reflexivity]).
Defined.
